(** * create_icon.py: the Term.app icon generator

  A shallow embedding of [scripts/create_icon.py].  The script has two
  layers and so has this file:

  - the _drawing child_: the inline program handed to [python3 -c], a
    straight line of Quartz calls on one bitmap context, whose numbers
    are Python floats (IEEE 754 binary64, here Rocq's primitive floats);
  - the _parent_: a directory creation, a loop of checked child
    processes, a guarded copy loop and one unchecked conversion call,
    modelled in a state-and-exception monad over a small file system,
    the console and the list of spawned processes. *)

From Stdlib Require Import ZArith List Ascii Floats Uint63 Lia.
From stdpp Require Import base strings pretty gmap list.

Set Warnings "-inexact-float".

(** ** Python numbers used by the drawing child *)

Module PyNum.

(** [max(2, size * 0.055)] yields the [int] or the [float], whichever
    wins, so the value keeps its Python type. *)
Inductive t :=
| PyInt (z : Z)
| PyFloat (f : float).

(** [float(z)] for the magnitudes the script meets (below 2^63 the
    conversion of [of_uint63] is the correctly rounded one).  Beyond
    that Python rounds or raises [OverflowError] where this wraps, so
    what is stated about the picture is stated for bounded sizes. *)
Definition int_to_float (z : Z) : float :=
  if (z <? 0)%Z
  then PrimFloat.opp (PrimFloat.of_uint63 (Uint63.of_Z (- z)))
  else PrimFloat.of_uint63 (Uint63.of_Z z).

(** [size * c] with [size] an [int] and [c] a float literal. *)
Definition mul_if (size : Z) (c : float) : float :=
  PrimFloat.mul (int_to_float size) c.

(** [max(a, b)] with [a] an [int] and [b] a [float]: the builtin keeps
    its first argument unless a later one is strictly greater. *)
Definition max_if (a : Z) (b : float) : t :=
  if PrimFloat.ltb (int_to_float a) b then PyFloat b else PyInt a.

(** The bridge converts every numeric argument of a Quartz call to a
    [CGFloat], a double. *)
Definition to_cgfloat (v : t) : float :=
  match v with
  | PyInt z => int_to_float z
  | PyFloat f => f
  end.

End PyNum.

(** ** The slice of Quartz the child calls *)

Module Quartz.

Record CGRect := CGRectMake
  { rect_x : float; rect_y : float; rect_w : float; rect_h : float }.

Record rgba := RGBA
  { red : float; green : float; blue : float; alpha : float }.

Inductive CGLineCap := kCGLineCapButt | kCGLineCapRound | kCGLineCapSquare.
Inductive CGLineJoin := kCGLineJoinMiter | kCGLineJoinRound | kCGLineJoinBevel.

Inductive path_element :=
| RoundedRect (r : CGRect) (cornerWidth cornerHeight : float)
| MoveTo (x y : float)
| LineTo (x y : float).

Definition CGPath := list path_element.

(** What has been painted on the bitmap, oldest first. *)
Inductive paint :=
| FilledRect (c : rgba) (r : CGRect)
| FilledPath (c : rgba) (p : CGPath)
| StrokedPath (c : rgba) (width : float)
              (cap : CGLineCap) (join : CGLineJoin) (p : CGPath).

(** A bitmap context: its pixel size, the graphics state, the path
    under construction and the paint laid down so far. *)
Record CGContext := Context
  { ctx_width : Z;
    ctx_height : Z;
    fill_color : rgba;
    stroke_color : rgba;
    line_width : float;
    line_cap : CGLineCap;
    line_join : CGLineJoin;
    current_path : CGPath;
    canvas : list paint }.

Definition black : rgba := RGBA 0 0 0 1.

(** A fresh context has Quartz's initial graphics state: width 1, butt
    caps, miter joins, an empty path. *)
Definition CGBitmapContextCreate (width height : Z) : CGContext :=
  Context width height black black 1 kCGLineCapButt kCGLineJoinMiter [] [].

Definition CGContextSetRGBFillColor (c : CGContext) (r g b a : float) : CGContext :=
  Context (ctx_width c) (ctx_height c) (RGBA r g b a) (stroke_color c)
          (line_width c) (line_cap c) (line_join c) (current_path c) (canvas c).

Definition CGContextSetRGBStrokeColor (c : CGContext) (r g b a : float) : CGContext :=
  Context (ctx_width c) (ctx_height c) (fill_color c) (RGBA r g b a)
          (line_width c) (line_cap c) (line_join c) (current_path c) (canvas c).

Definition CGContextSetLineWidth (c : CGContext) (w : float) : CGContext :=
  Context (ctx_width c) (ctx_height c) (fill_color c) (stroke_color c)
          w (line_cap c) (line_join c) (current_path c) (canvas c).

Definition CGContextSetLineCap (c : CGContext) (k : CGLineCap) : CGContext :=
  Context (ctx_width c) (ctx_height c) (fill_color c) (stroke_color c)
          (line_width c) k (line_join c) (current_path c) (canvas c).

Definition CGContextSetLineJoin (c : CGContext) (k : CGLineJoin) : CGContext :=
  Context (ctx_width c) (ctx_height c) (fill_color c) (stroke_color c)
          (line_width c) (line_cap c) k (current_path c) (canvas c).

Definition with_path (c : CGContext) (p : CGPath) : CGContext :=
  Context (ctx_width c) (ctx_height c) (fill_color c) (stroke_color c)
          (line_width c) (line_cap c) (line_join c) p (canvas c).

(** Painting clears the current path. *)
Definition lay (c : CGContext) (x : paint) : CGContext :=
  Context (ctx_width c) (ctx_height c) (fill_color c) (stroke_color c)
          (line_width c) (line_cap c) (line_join c) [] (canvas c ++ [x]).

Definition CGContextFillRect (c : CGContext) (r : CGRect) : CGContext :=
  lay c (FilledRect (fill_color c) r).

Definition CGPathCreateWithRoundedRect (r : CGRect) (cw ch : float) : CGPath :=
  [RoundedRect r cw ch].

Definition CGContextAddPath (c : CGContext) (p : CGPath) : CGContext :=
  with_path c (current_path c ++ p).

Definition CGContextFillPath (c : CGContext) : CGContext :=
  lay c (FilledPath (fill_color c) (current_path c)).

Definition CGContextStrokePath (c : CGContext) : CGContext :=
  lay c (StrokedPath (stroke_color c) (line_width c)
                     (line_cap c) (line_join c) (current_path c)).

Definition CGContextMoveToPoint (c : CGContext) (x y : float) : CGContext :=
  with_path c (current_path c ++ [MoveTo x y]).

Definition CGContextAddLineToPoint (c : CGContext) (x y : float) : CGContext :=
  with_path c (current_path c ++ [LineTo x y]).

(** [CGBitmapContextCreateImage]: the picture that gets encoded. *)
Record CGImage := Image
  { image_width : Z; image_height : Z; image_paint : list paint }.

Definition CGBitmapContextCreateImage (c : CGContext) : CGImage :=
  Image (ctx_width c) (ctx_height c) (canvas c).

(** The points a path visits, for the extent of a stroked polyline. *)
Definition point_of (e : path_element) : option (float * float) :=
  match e with
  | MoveTo x y | LineTo x y => Some (x, y)
  | RoundedRect _ _ _ => None
  end.

Definition fmin (a b : float) : float := if PrimFloat.ltb b a then b else a.
Definition fmax (a b : float) : float := if PrimFloat.ltb a b then b else a.

(** Smallest and largest coordinate among a list of numbers. *)
Definition span (l : list float) : option (float * float) :=
  match l with
  | [] => None
  | a :: l' => Some (fold_left fmin l' a, fold_left fmax l' a)
  end.

Definition xs_of (p : CGPath) : list float :=
  omap (fun e => fst <$> point_of e) p.
Definition ys_of (p : CGPath) : list float :=
  omap (fun e => snd <$> point_of e) p.

Definition stroke_width_of (p : paint) : option float :=
  match p with StrokedPath _ w _ _ _ => Some w | _ => None end.

Definition rect_of (p : paint) : option CGRect :=
  match p with FilledRect _ r => Some r | _ => None end.

End Quartz.

(** ** The drawing child: the program between the triple quotes *)

Module Child.
Import PyNum Quartz.
Local Open Scope float_scope.

Local Notation "size *. c" := (mul_if size c) (at level 40, left associativity).

Definition draw (size : Z) : CGContext :=
  let context := CGBitmapContextCreate size size in
  (* Background: dark gradient *)
  let context := CGContextSetRGBFillColor context 0.08 0.08 0.1 1.0 in
  let context :=
    CGContextFillRect context
      (CGRectMake 0 0 (int_to_float size) (int_to_float size)) in
  (* Rounded corners effect *)
  let corner := size *. 0.18 in
  let context := CGContextSetRGBFillColor context 0.12 0.12 0.15 1.0 in
  let rect := CGRectMake (size *. 0.08) (size *. 0.08) (size *. 0.84) (size *. 0.84) in
  let path := CGPathCreateWithRoundedRect rect corner corner in
  let context := CGContextAddPath context path in
  let context := CGContextFillPath context in
  (* Border *)
  let context := CGContextSetRGBStrokeColor context 0.25 0.25 0.3 1.0 in
  let context :=
    CGContextSetLineWidth context (to_cgfloat (max_if 1 (size *. 0.015))) in
  let context := CGContextAddPath context path in
  let context := CGContextStrokePath context in
  (* Terminal prompt > symbol (green) *)
  let context := CGContextSetRGBStrokeColor context 0.0 0.85 0.45 1.0 in
  let x := size *. 0.25 in
  let y := size *. 0.38 in
  let w := size *. 0.18 in
  let h := size *. 0.24 in
  let context :=
    CGContextSetLineWidth context (to_cgfloat (max_if 2 (size *. 0.055))) in
  let context := CGContextSetLineCap context kCGLineCapRound in
  let context := CGContextSetLineJoin context kCGLineJoinRound in
  let context := CGContextMoveToPoint context x (y + h) in
  let context := CGContextAddLineToPoint context (x + w) (y + h / 2) in
  let context := CGContextAddLineToPoint context x y in
  let context := CGContextStrokePath context in
  (* Cursor _ (white, blinking style) *)
  let context := CGContextSetRGBFillColor context 0.95 0.95 0.95 0.9 in
  let cursorX := size *. 0.5 in
  let cursorY := size *. 0.38 in
  let cursorW := size *. 0.22 in
  let cursorH := max_if 2 (size *. 0.045) in
  let context :=
    CGContextFillRect context
      (CGRectMake cursorX cursorY cursorW (to_cgfloat cursorH)) in
  context.

(** The image the child hands to the PNG encoder. *)
Definition image (size : Z) : CGImage :=
  CGBitmapContextCreateImage (draw size).

(** The paint operations in the order of the script. *)
Definition background (size : Z) : option paint := canvas (draw size) !! 0%nat.
Definition panel (size : Z) : option paint := canvas (draw size) !! 1%nat.
Definition border (size : Z) : option paint := canvas (draw size) !! 2%nat.
Definition chevron (size : Z) : option paint := canvas (draw size) !! 3%nat.
Definition cursor (size : Z) : option paint := canvas (draw size) !! 4%nat.

End Child.

(** ** The machine around the script: files, console, child processes *)

Module OS.

Definition bytes := list Byte.byte.

(** A path names a directory or a regular file with its content. *)
Inductive node :=
| Dir
| File (content : bytes).

Abbreviation filesystem := (gmap string node).

(** The three programs the script spawns.  [Python3 size png_path] is
    [["python3"; "-c"; script]] with the template's two holes filled. *)
Inductive command :=
| Python3 (size : Z) (png_path : string)
| Cp (src dst : string)
| Iconutil (iconset out : string).

(** What the script cannot decide: how a child exits, what it says on
    stderr, and what the two encoders produce.  In one run no command
    is spawned twice, so a function of the command covers every way a
    run can go. *)
Record World := MkWorld
  { exit_status : command -> Z;
    stderr_text : command -> string;
    png_encode : Quartz.CGImage -> option bytes;
    icns_encode : filesystem -> bytes }.

(** [stdout] is the console as a terminal shows it, oldest line first;
    [procs] lists every child with the status it exited with; [writes]
    lists every path a file was written to. *)
Record state := MkState
  { fs : filesystem;
    stdout : list string;
    procs : list (command * Z);
    writes : list string }.

Definition write_file (p : string) (b : bytes) (st : state) : state :=
  MkState (<[p := File b]> (fs st)) (stdout st) (procs st) (writes st ++ [p]).

Definition emit (line : string) (st : state) : state :=
  MkState (fs st) (stdout st ++ [line]) (procs st) (writes st).

Definition log_proc (c : command) (rc : Z) (st : state) : state :=
  MkState (fs st) (stdout st) (procs st ++ [(c, rc)]) (writes st).

(** The exit status of a child: [cp] fails by itself when its source is
    not a regular file; otherwise the world decides. *)
Definition status_of (w : World) (c : command) (st : state) : Z :=
  match c with
  | Cp src _ =>
      match fs st !! src with
      | Some (File _) => exit_status w c
      | _ => 1%Z
      end
  | _ => exit_status w c
  end.

(** What a child that exits with 0 has done.  The drawing child runs
    its script to the end: the encoder may or may not have produced the
    file, and the last line printed the path.  [cp] and the encoders
    replace what their output path held; this is what they do when that
    path is absent or a regular file.  A directory in the way is outside
    the model ([cp] would copy into it), so what is stated about files
    is stated for states with no directory at an output path. *)
Definition effect_of (w : World) (c : command) (st : state) : state :=
  match c with
  | Python3 size png_path =>
      let st1 :=
        match png_encode w (Child.image size) with
        | Some b => write_file png_path b st
        | None => st
        end in
      emit ("Created " +:+ png_path) st1
  | Cp src dst =>
      match fs st !! src with
      | Some (File b) => write_file dst b st
      | _ => st
      end
  | Iconutil _ out => write_file out (icns_encode w (fs st)) st
  end.

(** Run a child to its end; a child that fails leaves nothing behind. *)
Definition spawn (w : World) (c : command) (st : state) : Z * state :=
  let rc := status_of w c st in
  let st1 := if (rc =? 0)%Z then effect_of w c st else st in
  (rc, log_proc c rc st1).

End OS.

(** ** The Python runtime: exceptions, [subprocess], [os], [print] *)

Module Py.
Import OS.

Inductive exn :=
| CalledProcessError (returncode : Z) (cmd : command)
| FileExistsError (path : string).

Inductive result (A : Type) :=
| Ok (a : A)
| Raise (e : exn).
Arguments Ok {A} a.
Arguments Raise {A} e.

(** A statement: it runs in a state and ends normally or by raising. *)
Definition M (A : Type) : Type := state -> result A * state.

Definition ret {A} (a : A) : M A := fun st => (Ok a, st).

Definition bind {A B} (m : M A) (k : A -> M B) : M B :=
  fun st =>
    match m st with
    | (Ok a, st1) => k a st1
    | (Raise e, st1) => (Raise e, st1)
    end.

Definition raise {A} (e : exn) : M A := fun st => (Raise e, st).

Declare Scope py_scope.
Delimit Scope py_scope with py.
Notation "x <- m ;; k" := (bind m (fun x => k))
  (at level 100, m at next level, right associativity) : py_scope.
Notation "m ;; k" := (bind m (fun _ => k))
  (at level 100, right associativity) : py_scope.
Local Open Scope py_scope.

(** [for x in l: body] *)
Fixpoint for_each {A} (l : list A) (body : A -> M unit) : M unit :=
  match l with
  | [] => ret tt
  | x :: l' => body x ;; for_each l' body
  end.

Definition print (line : string) : M unit :=
  fun st => (Ok tt, emit line st).

Definition os_path_exists (p : string) : M bool :=
  fun st => (Ok (bool_decide (is_Some (fs st !! p))), st).

(** [os.makedirs(p, exist_ok=...)]: an existing directory is accepted
    only with [exist_ok]; an existing regular file never is. *)
Definition os_makedirs (p : string) (exist_ok : bool) : M unit :=
  fun st =>
    match fs st !! p with
    | None => (Ok tt, MkState (<[p := Dir]> (fs st)) (stdout st) (procs st) (writes st))
    | Some Dir => if exist_ok then (Ok tt, st) else (Raise (FileExistsError p), st)
    | Some (File _) => (Raise (FileExistsError p), st)
    end.

Record CompletedProcess := Completed
  { args : command; returncode : Z; stderr : option string }.

(** [subprocess.run(cmd, check=..., capture_output=..., text=True)] *)
Definition subprocess_run (w : World) (cmd : command)
           (check capture_output : bool) : M CompletedProcess :=
  fun st =>
    let '(rc, st1) := spawn w cmd st in
    if check && negb (rc =? 0)%Z
    then (Raise (CalledProcessError rc cmd), st1)
    else (Ok (Completed cmd rc
                (if capture_output then Some (stderr_text w cmd) else None)),
          st1).

(** [str(x)] of an optional string inside an f-string. *)
Definition fmt (s : option string) : string :=
  match s with Some t => t | None => "None" end.

(** The status the interpreter exits with. *)
Definition exit_code {A} (r : result A) : Z :=
  match r with Ok _ => 0 | Raise _ => 1 end.

(** How a run ended: [Q] if normally, [E] if by an exception. *)
Definition ends {A} (x : result A * state)
           (Q : A -> state -> Prop) (E : exn -> state -> Prop) : Prop :=
  match x with
  | (Ok a, st) => Q a st
  | (Raise e, st) => E e st
  end.

End Py.

(** ** The script *)

Module CreateIcon.
Import OS Py.
Local Open Scope py_scope.

Definition iconset_dir : string := "/tmp/Term.iconset".
Definition icns_path : string := "/tmp/Term.icns".

Definition sizes : list Z := [16; 32; 64; 128; 256; 512; 1024]%Z.
Definition retina_sizes : list Z := [16; 32; 128; 256; 512]%Z.

Definition png_path (size : Z) : string :=
  iconset_dir +:+ "/icon_" +:+ pretty size +:+ "x" +:+ pretty size +:+ ".png".

Definition src_path (size : Z) : string :=
  iconset_dir +:+ "/icon_" +:+ pretty (size * 2)%Z +:+ "x"
              +:+ pretty (size * 2)%Z +:+ ".png".

Definition dst_path (size : Z) : string :=
  iconset_dir +:+ "/icon_" +:+ pretty size +:+ "x" +:+ pretty size +:+ "@2x.png".

Definition draw_cmd (size : Z) : command := Python3 size (png_path size).
Definition copy_cmd (size : Z) : command := Cp (src_path size) (dst_path size).
Definition iconutil_cmd : command := Iconutil iconset_dir icns_path.

Definition banner : string :=
  String (Ascii.ascii_of_nat 10) "âœ… Icon created: /tmp/Term.icns".
Definition install_hint : string :=
  "To install: cp /tmp/Term.icns ~/Applications/Term.app/Contents/Resources/".

(** Lines 15-73 for one size. *)
Definition render_step (w : World) (size : Z) : M unit :=
  subprocess_run w (draw_cmd size) true false ;; ret tt.

(** Lines 77-81 for one size. *)
Definition copy_step (w : World) (size : Z) : M unit :=
  let src := src_path size in
  let dst := dst_path size in
  found <- os_path_exists src ;;
  if found
  then subprocess_run w (Cp src dst) true false ;;
       print ("Created " +:+ dst)
  else ret tt.

Definition render_pass (w : World) : M unit := for_each sizes (render_step w).
Definition copy_pass (w : World) : M unit := for_each retina_sizes (copy_step w).

(** Lines 84-92. *)
Definition package (w : World) : M unit :=
  result <- subprocess_run w iconutil_cmd false true ;;
  if (returncode result =? 0)%Z
  then print banner ;;
       print install_hint
  else print ("Error: " +:+ fmt (stderr result)).

Definition main (w : World) : M unit :=
  os_makedirs iconset_dir true ;;
  render_pass w ;;
  copy_pass w ;;
  package w.

(** Lines 10-81: the run up to the end of the copy loop. *)
Definition upto_copy (w : World) : M unit :=
  os_makedirs iconset_dir true ;;
  render_pass w ;;
  copy_pass w.

(** The copy step with its [os.path.exists] guard taken away, to compare
    the loop against. *)
Definition copy_step_unguarded (w : World) (size : Z) : M unit :=
  subprocess_run w (Cp (src_path size) (dst_path size)) true false ;;
  print ("Created " +:+ dst_path size).

Definition is_conversion (c : command) : bool :=
  match c with Iconutil _ _ => true | _ => false end.

Definition is_copy (c : command) : bool :=
  match c with Cp _ _ => true | _ => false end.

(** Every command of a run, in the order of the script. *)
Definition all_commands : list command :=
  (draw_cmd <$> sizes) ++ (copy_cmd <$> retina_sizes) ++ [iconutil_cmd].

(** Every path the script names. *)
Definition all_paths : list string :=
  iconset_dir :: icns_path :: (png_path <$> sizes) ++ (dst_path <$> retina_sizes).

End CreateIcon.

(** ** What the loops have done so far *)

Module Progress.
Import OS Py CreateIcon.

(** The path a drawing child writes, when the encoder produces a file. *)
Definition written_png (w : World) (size : Z) : option string :=
  match png_encode w (Child.image size) with
  | Some _ => Some (png_path size)
  | None => None
  end.

(** [st] is [st0] after the drawing children of [done] all exited with 0. *)
Definition rendered (w : World) (st0 : state) (done : list Z) (st : state) : Prop :=
  procs st = procs st0 ++ ((fun s => (draw_cmd s, 0%Z)) <$> done)
  /\ stdout st = stdout st0 ++ ((fun s => "Created " +:+ png_path s) <$> done)
  /\ writes st = writes st0 ++ omap (written_png w) done
  /\ (forall p, p ∉ png_path <$> done -> fs st !! p = fs st0 !! p)
  /\ (forall s b, s ∈ done -> png_encode w (Child.image s) = Some b ->
                  fs st !! png_path s = Some (File b)).

(** [st] is [st0] after the copies for [done] all went through. *)
Definition copied (st0 : state) (done : list Z) (st : state) : Prop :=
  procs st = procs st0 ++ ((fun s => (copy_cmd s, 0%Z)) <$> done)
  /\ stdout st = stdout st0 ++ ((fun s => "Created " +:+ dst_path s) <$> done)
  /\ writes st = writes st0 ++ (dst_path <$> done)
  /\ (forall p, p ∉ dst_path <$> done -> fs st !! p = fs st0 !! p)
  /\ (forall s, s ∈ done -> fs st !! dst_path s = fs st0 !! src_path s).

(** [st] is [st0] after the copy steps of [done], whatever [st0] held:
    only destinations changed, only [cp] children were spawned, and each
    size whose source existed got its bytes through one that exited
    with 0. *)
Definition copied_from (st0 : state) (done : list Z) (st : state) : Prop :=
  (forall p, p ∉ dst_path <$> done -> fs st !! p = fs st0 !! p)
  /\ exists new,
       procs st = procs st0 ++ new
       /\ Forall (fun p => is_copy p.1 = true) new
       /\ forall s, s ∈ done -> is_Some (fs st0 !! src_path s) ->
            exists b, fs st0 !! src_path s = Some (File b)
              /\ fs st !! dst_path s = Some (File b)
              /\ (copy_cmd s, 0%Z) ∈ new.

(** A copy child that stopped the loop. *)
Definition copy_failed (w : World) (l : list Z) (e : exn) : Prop :=
  exists s, s ∈ l
    /\ exit_status w (copy_cmd s) <> 0%Z
    /\ e = CalledProcessError (exit_status w (copy_cmd s)) (copy_cmd s).

(** Children that all exited with 0. *)
Definition all_zero (new : list (command * Z)) : Prop :=
  Forall (fun p => p.2 = 0%Z) new.

(** A piece of the run from [st0] that ended normally in [st]: every
    child it spawned exited with 0. *)
Definition checked_ok (st0 st : state) : Prop :=
  exists new, procs st = procs st0 ++ new /\ all_zero new.

(** A piece of the run from [st0] that raised [e] in [st]: the last child
    spawned is a drawing or copy child, it exited with a status other than
    0, the exception carries both, and the children before it exited
    with 0. *)
Definition checked_raise (st0 : state) (e : exn) (st : state) : Prop :=
  match e with
  | CalledProcessError rc c =>
      exists new, procs st = procs st0 ++ new ++ [(c, rc)]
        /\ all_zero new /\ rc <> 0%Z /\ is_conversion c = false
  | FileExistsError _ => False
  end.

Definition checked {A} (m : M A) : Prop :=
  forall st0, ends (m st0) (fun _ => checked_ok st0) (checked_raise st0).

End Progress.

(** ** Sample machines, to run the script on *)

Module Samples.
Import OS Py CreateIcon.

Definition fresh : state := MkState ∅ [] [] [].

(** A stand-in encoder: the file holds the decimal width of the image. *)
Definition toy_png (img : Quartz.CGImage) : option bytes :=
  Some (String.list_byte_of_string (pretty (Quartz.image_width img))).

(** Every child exits with 0. *)
Definition healthy : World :=
  MkWorld (fun _ => 0%Z) (fun _ => "") toy_png (fun _ => []).

(** The drawing child for size 64 exits with 1. *)
Definition draw64_crashes : World :=
  MkWorld (fun c => match c with Python3 64 _ => 1%Z | _ => 0%Z end)
          (fun _ => "") toy_png (fun _ => []).

(** [iconutil] exits with 1 and complains on stderr. *)
Definition iconutil_rejects : World :=
  MkWorld (fun c => if is_conversion c then 1%Z else 0%Z)
          (fun c => if is_conversion c
                    then "/tmp/Term.iconset:error: Failed to generate ICNS."
                    else "")
          toy_png (fun _ => []).

(** The state a previous run left: the directory and two old files. *)
Definition leftover : state :=
  MkState (<[iconset_dir := Dir]>
            (<[png_path 16 := File [Byte.x00]]>
              (<[dst_path 16 := File [Byte.x01]]> ∅)))
          [] [] [].

End Samples.

(** ** File names, character by character *)

Module Names.

(** No character of [s] is the letter [x], the separator of the two
    numbers in a file name. *)
Fixpoint no_x (s : string) : Prop :=
  match s with
  | EmptyString => True
  | String c s' => c <> "x"%char /\ no_x s'
  end.

End Names.

(** ** Where the shapes lie *)

Module Layout.
Import PyNum Quartz.
Local Open Scope float_scope.

(** The point [(x, y)] lies in the rectangle [r], edges included. *)
Definition within (r : CGRect) (x y : float) : bool :=
  (rect_x r <=? x) && (x <=? rect_x r + rect_w r)
  && (rect_y r <=? y) && (y <=? rect_y r + rect_h r).

Definition rect_within (outer inner : CGRect) : bool :=
  within outer (rect_x inner) (rect_y inner)
  && within outer (rect_x inner + rect_w inner) (rect_y inner + rect_h inner).

Definition points_within (r : CGRect) (p : CGPath) : bool :=
  forallb (fun e => match point_of e with
                    | Some (x, y) => within r x y
                    | None => false
                    end) p.

(** The path a paint went along, and the caps and joins of a stroke. *)
Definition path_of (p : paint) : option CGPath :=
  match p with
  | FilledPath _ q | StrokedPath _ _ _ _ q => Some q
  | FilledRect _ _ => None
  end.

Definition caps_of (p : paint) : option (CGLineCap * CGLineJoin) :=
  match p with
  | StrokedPath _ _ cap join _ => Some (cap, join)
  | _ => None
  end.

(** The picture of [size] is laid out as meant: the panel inside the
    canvas, the three points of the chevron and the cursor block inside
    the panel, and the chevron wholly to the left of the cursor. *)
Definition layout_ok (size : Z) : bool :=
  match canvas (Child.draw size) with
  | [FilledRect _ bg; FilledPath _ [RoundedRect panel _ _];
     StrokedPath _ _ _ _ _; StrokedPath _ _ _ _ glyph; FilledRect _ cur] =>
      rect_within bg panel
      && points_within panel glyph
      && rect_within panel cur
      && forallb (fun x => x <? rect_x cur) (xs_of glyph)
  | _ => false
  end.

End Layout.

(** ** What a statement may touch and spawn *)

Module Footprint.
Import OS Py CreateIcon.

(** From [st0] to [st] no path outside [paths] changed and no path was
    removed. *)
Definition kept (paths : list string) (st0 st : state) : Prop :=
  forall p, (p ∉ paths -> fs st !! p = fs st0 !! p)
            /\ (is_Some (fs st0 !! p) -> is_Some (fs st !! p)).

Definition confined {A} (paths : list string) (m : M A) : Prop :=
  forall st0, kept paths st0 (m st0).2.

(** The children [m] spawns are among [cmds], in the order of [cmds], each
    at most as often as it occurs there. *)
Definition spawns {A} (cmds : list command) (m : M A) : Prop :=
  forall st0, exists new,
    procs (m st0).2 = procs st0 ++ new /\ new.*1 `sublist_of` cmds.

(** [m] makes no directory: a path that is one afterwards was one before. *)
Definition makes_no_dir {A} (m : M A) : Prop :=
  forall st p, fs (m st).2 !! p = Some Dir -> fs st !! p = Some Dir.

(** None of the base PNG paths is a directory. *)
Definition pngs_plain (st : state) : Prop :=
  forall s, s ∈ sizes -> fs st !! png_path s <> Some Dir.

#[global] Instance command_eq_dec : EqDecision command.
Proof. solve_decision. Defined.

End Footprint.

(** ** One more sample machine *)

Module MoreSamples.
Import OS Py CreateIcon Samples.

(** The copy for size 128 exits with 1; everything else goes well. *)
Definition cp128_fails : World :=
  MkWorld (fun c => if decide (c = copy_cmd 128) then 1%Z else 0%Z)
          (fun _ => "") toy_png (fun _ => []).

(** The encoder writes nothing and [iconutil] exits with 1, while every
    drawing and copy child exits with 0. *)
Definition blind_encoder : World :=
  MkWorld (fun c => if is_conversion c then 1%Z else 0%Z)
          (fun _ => "") (fun _ => None) (fun _ => []).

(** A directory already there, with a file of the user's beside it. *)
Definition cluttered : state :=
  MkState (<[iconset_dir := Dir]>
            (<["/tmp/notes.txt" := File [Byte.x68; Byte.x69]]> ∅))
          [] [] [].

End MoreSamples.

(** ** States with no directory in the way *)

Module Plain.
Import OS Py CreateIcon.

(** The thirteen paths the children write to. *)
Definition output_paths : list string :=
  (png_path <$> sizes) ++ (dst_path <$> retina_sizes) ++ [icns_path].

(** None of the thirteen output paths is a directory. *)
Definition outputs_plain (st : state) : Prop :=
  forall p, p ∈ output_paths -> fs st !! p <> Some Dir.

(** None of the five variant paths is a directory. *)
Definition variants_plain (st : state) : Prop :=
  forall s, s ∈ retina_sizes -> fs st !! dst_path s <> Some Dir.

(** Settles [outputs_plain] or [variants_plain] of a concrete state by
    looking up each path. *)
Ltac look_up_each_path :=
  let x := fresh "x" in
  let Hx := fresh "Hx" in
  intros x Hx; apply list_elem_of_In in Hx; vm_compute in Hx;
  repeat (destruct Hx as [<- | Hx]); try (by destruct Hx);
  vm_compute; discriminate.

End Plain.

(** ** Reasoning about statements *)

Module Rules.
Import OS Py.
Local Open Scope py_scope.

Lemma bind_ok {A B} (m : M A) (k : A -> M B) st a st1 :
  m st = (Ok a, st1) -> bind m k st = k a st1.
Proof. unfold bind. by intros ->. Qed.

Lemma bind_raise {A B} (m : M A) (k : A -> M B) st e st1 :
  m st = (Raise e, st1) -> bind m k st = (Raise e, st1).
Proof. unfold bind. by intros ->. Qed.

Lemma bind_assoc {A B C} (m : M A) (k : A -> M B) (h : B -> M C) st :
  bind (bind m k) h st = bind m (fun a => bind (k a) h) st.
Proof. unfold bind. by destruct (m st) as [[a|e] st1]. Qed.

Lemma ends_bind {A B} (m : M A) (k : A -> M B) st
      (Q : B -> state -> Prop) (E : exn -> state -> Prop) :
  ends (m st) (fun a st1 => ends (k a st1) Q E) E -> ends (bind m k st) Q E.
Proof. unfold bind, ends. by destruct (m st) as [[a|e] st1]. Qed.

Lemma ends_mono {A} (x : result A * state) (Q Q' : A -> state -> Prop)
      (E E' : exn -> state -> Prop) :
  ends x Q E ->
  (forall a st, Q a st -> Q' a st) ->
  (forall e st, E e st -> E' e st) ->
  ends x Q' E'.
Proof. destruct x as [[a|e] st]; simpl; auto. Qed.

Lemma for_each_cons {A} (x : A) l (body : A -> M unit) st :
  for_each (x :: l) body st = bind (body x) (fun _ => for_each l body) st.
Proof. reflexivity. Qed.

(** A loop over [l1 ++ l2] is the loop over [l1] followed, unless it
    raised, by the loop over [l2]. *)
Lemma for_each_app {A} (l1 l2 : list A) (body : A -> M unit) st :
  for_each (l1 ++ l2) body st =
  bind (for_each l1 body) (fun _ => for_each l2 body) st.
Proof.
  revert st. induction l1 as [|x l1 IH]; intros st.
  - reflexivity.
  - simpl. rewrite bind_assoc. unfold bind at 1 2.
    destruct (body x st) as [[[]|e] st1]; [apply IH | reflexivity].
Qed.

(** The loop rule: an invariant indexed by the elements already done. *)
Lemma for_each_rule {A} (I : list A -> state -> Prop)
      (E : exn -> state -> Prop) (body : A -> M unit) (l : list A) :
  (forall done x rest st,
      l = done ++ x :: rest -> I done st ->
      ends (body x st) (fun _ => I (done ++ [x])) E) ->
  forall st, I [] st -> ends (for_each l body st) (fun _ => I l) E.
Proof.
  intros Hstep.
  assert (Hgen : forall rest done st,
             l = done ++ rest -> I done st ->
             ends (for_each rest body st) (fun _ => I l) E).
  { induction rest as [|x rest IH]; intros done st Hl HI.
    - rewrite app_nil_r in Hl. by subst.
    - rewrite for_each_cons. apply ends_bind.
      eapply ends_mono; [by eapply Hstep | | done].
      intros [] st1 HI1. simpl. apply (IH (done ++ [x])); [|done].
      by rewrite <- app_assoc. }
  intros st HI. by apply (Hgen l []).
Qed.

(** Two loop bodies that agree on every state the loop can reach give
    the same loop. *)
Lemma for_each_agree {A} (I : state -> Prop) (f g : A -> M unit) (l : list A) :
  (forall x st, x ∈ l -> I st ->
      f x st = g x st /\ ends (f x st) (fun _ => I) (fun _ _ => True)) ->
  forall st, I st -> for_each l f st = for_each l g st.
Proof.
  induction l as [|x l IH]; intros Hstep st HI; [done|].
  rewrite !for_each_cons.
  destruct (Hstep x st) as [Heq Hend]; [left | done |].
  unfold bind. rewrite <- Heq.
  destruct (f x st) as [[[]|e] st1]; [|done].
  apply IH; [|done]. intros y st2 Hy. apply Hstep. by right.
Qed.

End Rules.

(** ** The names of the files *)

Module Paths.
Import OS Py CreateIcon.

Lemma src_is_png (size : Z) : src_path size = png_path (size * 2).
Proof. reflexivity. Qed.

Lemma doubled_in_sizes (size : Z) : size ∈ retina_sizes -> (size * 2)%Z ∈ sizes.
Proof.
  unfold retina_sizes, sizes. intros H.
  repeat (apply elem_of_cons in H as [-> | H]); try (by apply elem_of_nil in H);
    apply list_elem_of_In; vm_compute; tauto.
Qed.

(** The fourteen paths of the script are pairwise different. *)
Lemma all_paths_distinct : NoDup all_paths.
Proof. apply (bool_decide_unpack _). vm_compute. exact I. Qed.

Lemma pngs_distinct : NoDup (png_path <$> sizes).
Proof.
  pose proof all_paths_distinct as H. unfold all_paths in H.
  apply NoDup_cons in H as [_ H]. apply NoDup_cons in H as [_ H].
  by apply NoDup_app in H as (H & _ & _).
Qed.

Lemma dsts_distinct : NoDup (dst_path <$> retina_sizes).
Proof.
  pose proof all_paths_distinct as H. unfold all_paths in H.
  apply NoDup_cons in H as [_ H]. apply NoDup_cons in H as [_ H].
  by apply NoDup_app in H as (_ & _ & H).
Qed.

Lemma png_not_dst s x :
  s ∈ sizes -> x ∈ retina_sizes -> png_path s <> dst_path x.
Proof.
  intros Hs Hx Heq.
  pose proof all_paths_distinct as H. unfold all_paths in H.
  apply NoDup_cons in H as [_ H]. apply NoDup_cons in H as [_ H].
  apply NoDup_app in H as (_ & H & _).
  apply (H (png_path s)); [by apply list_elem_of_fmap_2|].
  rewrite Heq. by apply list_elem_of_fmap_2.
Qed.

Lemma src_not_dst x y :
  x ∈ retina_sizes -> y ∈ retina_sizes -> src_path x <> dst_path y.
Proof.
  intros Hx Hy. rewrite src_is_png.
  apply png_not_dst; [by apply doubled_in_sizes | done].
Qed.

Lemma icns_not_png s : s ∈ sizes -> png_path s <> icns_path.
Proof.
  intros Hs Heq.
  pose proof all_paths_distinct as H. unfold all_paths in H.
  apply NoDup_cons in H as [_ H]. apply NoDup_cons in H as [H _].
  apply H. rewrite <- Heq. apply elem_of_app. left.
  by apply list_elem_of_fmap_2.
Qed.

Lemma icns_not_dst x : x ∈ retina_sizes -> dst_path x <> icns_path.
Proof.
  intros Hx Heq.
  pose proof all_paths_distinct as H. unfold all_paths in H.
  apply NoDup_cons in H as [_ H]. apply NoDup_cons in H as [H _].
  apply H. rewrite <- Heq. apply elem_of_app. right.
  by apply list_elem_of_fmap_2.
Qed.

(** Different sizes of the copy list have different destinations. *)
Lemma dst_path_inj x y :
  x ∈ retina_sizes -> y ∈ retina_sizes -> dst_path x = dst_path y -> x = y.
Proof.
  unfold retina_sizes. intros Hx Hy.
  repeat (apply elem_of_cons in Hx as [-> | Hx]); try (by apply elem_of_nil in Hx);
    repeat (apply elem_of_cons in Hy as [-> | Hy]); try (by apply elem_of_nil in Hy);
    vm_compute; congruence.
Qed.

End Paths.

(** ** The steps of the script, one equation each *)

Module Steps.
Import OS Py CreateIcon Rules.
Local Open Scope Z_scope.

Lemma render_step_eq w size st :
  render_step w size st =
  let rc := exit_status w (draw_cmd size) in
  if rc =? 0
  then (Ok tt, log_proc (draw_cmd size) rc (effect_of w (draw_cmd size) st))
  else (Raise (CalledProcessError rc (draw_cmd size)),
        log_proc (draw_cmd size) rc st).
Proof.
  unfold render_step, bind, subprocess_run, spawn. simpl.
  by destruct (exit_status w (draw_cmd size) =? 0).
Qed.

Lemma copy_step_eq w size st :
  copy_step w size st =
  match fs st !! src_path size with
  | None => (Ok tt, st)
  | Some _ =>
      let rc := status_of w (copy_cmd size) st in
      if rc =? 0
      then (Ok tt, emit ("Created " +:+ dst_path size)
                     (log_proc (copy_cmd size) rc
                        (effect_of w (copy_cmd size) st)))
      else (Raise (CalledProcessError rc (copy_cmd size)),
            log_proc (copy_cmd size) rc st)
  end.
Proof.
  unfold copy_step, bind, os_path_exists, subprocess_run, spawn, print.
  destruct (fs st !! src_path size) as [n|] eqn:Hsrc.
  - rewrite bool_decide_eq_true_2 by eauto.
    fold (copy_cmd size).
    by destruct (status_of w (copy_cmd size) st =? 0).
  - rewrite bool_decide_eq_false_2; [done|]. by intros [? ?].
Qed.

Lemma copy_step_unguarded_eq w size st :
  copy_step_unguarded w size st =
  let rc := status_of w (copy_cmd size) st in
  if rc =? 0
  then (Ok tt, emit ("Created " +:+ dst_path size)
                 (log_proc (copy_cmd size) rc
                    (effect_of w (copy_cmd size) st)))
  else (Raise (CalledProcessError rc (copy_cmd size)),
        log_proc (copy_cmd size) rc st).
Proof.
  unfold copy_step_unguarded, bind, subprocess_run, spawn, print.
  fold (copy_cmd size).
  by destruct (status_of w (copy_cmd size) st =? 0).
Qed.

Lemma package_eq w st :
  package w st =
  let rc := exit_status w iconutil_cmd in
  if rc =? 0
  then (Ok tt, emit install_hint (emit banner
                 (log_proc iconutil_cmd rc
                    (write_file icns_path (icns_encode w (fs st)) st))))
  else (Ok tt, emit ("Error: " +:+ stderr_text w iconutil_cmd)
                 (log_proc iconutil_cmd rc st)).
Proof.
  unfold package, bind, subprocess_run, spawn, print. simpl.
  by destruct (exit_status w iconutil_cmd =? 0).
Qed.

Lemma main_split w st :
  main w st = bind (upto_copy w) (fun _ => package w) st.
Proof.
  unfold main, upto_copy, bind.
  destruct (os_makedirs iconset_dir true st) as [[[]|e] st1]; [|done].
  by destruct (render_pass w st1) as [[[]|e] st2].
Qed.

End Steps.

(** ** The render loop *)

Module Render.
Import OS Py CreateIcon Progress Rules Steps.
Local Open Scope Z_scope.

Lemma rendered_nil w st0 : rendered w st0 [] st0.
Proof.
  unfold rendered. simpl. rewrite !app_nil_r. repeat split; try done.
  intros s b Hs. by apply elem_of_nil in Hs.
Qed.

Lemma rendered_snoc w st0 done x st :
  png_path x ∉ png_path <$> done ->
  rendered w st0 done st ->
  rendered w st0 (done ++ [x])
           (log_proc (draw_cmd x) 0 (effect_of w (draw_cmd x) st)).
Proof.
  intros Hfresh (Hp & Ho & Hw & Hframe & Hfs).
  unfold rendered. rewrite !fmap_app, omap_app.
  unfold written_png at 2. cbn.
  destruct (png_encode w (Child.image x)) as [b|] eqn:Henc; cbn;
    rewrite Hp, Ho, Hw, <- ?app_assoc; (repeat split; try done).
  - intros p Hnot. rewrite not_elem_of_app, not_elem_of_cons in Hnot.
    destruct Hnot as [Hd [Hx _]]. rewrite lookup_insert_ne by done. auto.
  - intros s b' Hs Hb'. apply elem_of_app in Hs as [Hs | Hs].
    + rewrite lookup_insert_ne; [by eapply Hfs|].
      intros Heq. apply Hfresh. rewrite Heq. by apply list_elem_of_fmap_2.
    + apply list_elem_of_singleton in Hs as ->.
      rewrite lookup_insert_eq. congruence.
  - rewrite app_nil_r. done.
  - intros p Hnot. rewrite not_elem_of_app in Hnot. apply Hframe, Hnot.
  - intros s b' Hs Hb'. apply elem_of_app in Hs as [Hs | Hs]; [by eapply Hfs|].
    apply list_elem_of_singleton in Hs as ->. congruence.
Qed.

(** While the drawing children exit with 0 the loop goes on, and leaves
    one process, one console line and at most one file per size. *)
Lemma render_pass_runs w l st0 :
  NoDup (png_path <$> l) ->
  (forall s, s ∈ l -> exit_status w (draw_cmd s) = 0) ->
  ends (for_each l (render_step w) st0)
       (fun _ => rendered w st0 l) (fun _ _ => False).
Proof.
  intros Hnd Hok. apply for_each_rule; [|apply rendered_nil].
  intros done x rest st Hl HI.
  rewrite render_step_eq. simpl.
  rewrite Hok by (rewrite Hl; apply elem_of_app; right; left). simpl.
  apply rendered_snoc; [|done].
  rewrite Hl, fmap_app, fmap_cons in Hnd.
  apply NoDup_app in Hnd as (_ & Hdisj & _).
  intros Hin. apply (Hdisj _ Hin). left.
Qed.

(** A render loop that ended normally saw every child exit with 0. *)
Lemma render_pass_ok_inv w l st st' :
  for_each l (render_step w) st = (Ok tt, st') ->
  forall s, s ∈ l -> exit_status w (draw_cmd s) = 0.
Proof.
  revert st. induction l as [|x l IH]; intros st Hrun s Hs.
  - by apply elem_of_nil in Hs.
  - rewrite for_each_cons in Hrun. unfold bind in Hrun.
    rewrite render_step_eq in Hrun. simpl in Hrun.
    destruct (exit_status w (draw_cmd x) =? 0) eqn:Hx; [|done].
    apply elem_of_cons in Hs as [-> | Hs]; [lia | by eapply IH].
Qed.

End Render.

(** ** The copy loop *)

Module Copy.
Import OS Py CreateIcon Progress Rules Steps.
Local Open Scope Z_scope.

Lemma copied_nil st0 : copied st0 [] st0.
Proof.
  unfold copied. simpl. rewrite !app_nil_r. repeat split; try done.
  intros s Hs. by apply elem_of_nil in Hs.
Qed.

(** A copy step touches no path but its destination. *)
Lemma copy_step_frame w x st :
  ends (copy_step w x st)
       (fun _ st1 => forall p, p <> dst_path x -> fs st1 !! p = fs st !! p)
       (fun _ st1 => fs st1 = fs st).
Proof.
  rewrite copy_step_eq.
  destruct (fs st !! src_path x) as [n|] eqn:Hsrc; [|done]. cbn zeta.
  destruct (status_of w (copy_cmd x) st =? 0); [|done].
  cbn. rewrite Hsrc. intros p Hp.
  destruct n as [|b]; [done|]. cbn. by rewrite lookup_insert_ne.
Qed.

Lemma copy_step_file w x st b :
  fs st !! src_path x = Some (File b) ->
  copy_step w x st =
  if exit_status w (copy_cmd x) =? 0
  then (Ok tt, emit ("Created " +:+ dst_path x)
                 (log_proc (copy_cmd x) 0 (write_file (dst_path x) b st)))
  else (Raise (CalledProcessError (exit_status w (copy_cmd x)) (copy_cmd x)),
        log_proc (copy_cmd x) (exit_status w (copy_cmd x)) st).
Proof.
  intros Hsrc. rewrite copy_step_eq, Hsrc. cbn. rewrite Hsrc.
  destruct (exit_status w (copy_cmd x) =? 0) eqn:Hrc; [|done].
  apply Z.eqb_eq in Hrc. by rewrite Hrc.
Qed.

Lemma copied_snoc st0 done x st b :
  dst_path x ∉ dst_path <$> done ->
  src_path x ∉ dst_path <$> done ->
  fs st0 !! src_path x = Some (File b) ->
  copied st0 done st ->
  copied st0 (done ++ [x])
         (emit ("Created " +:+ dst_path x)
            (log_proc (copy_cmd x) 0 (write_file (dst_path x) b st))).
Proof.
  intros Hfresh Hsrcfresh Hsrc (Hp & Ho & Hw & Hframe & Hfs).
  unfold copied. rewrite !fmap_app. cbn.
  rewrite Hp, Ho, Hw, <- !app_assoc. repeat split; try done.
  - intros p Hnot. rewrite not_elem_of_app, not_elem_of_cons in Hnot.
    destruct Hnot as [Hd [Hx _]]. rewrite lookup_insert_ne by done. auto.
  - intros s Hs. apply elem_of_app in Hs as [Hs | Hs].
    + rewrite lookup_insert_ne; [by apply Hfs|].
      intros Heq. apply Hfresh. rewrite Heq. by apply list_elem_of_fmap_2.
    + apply list_elem_of_singleton in Hs as ->.
      by rewrite lookup_insert_eq.
Qed.

(** From a state where every source is a regular file, the loop copies
    each one, or stops at the first copy child that fails. *)
Lemma copy_pass_runs w l st0 :
  NoDup (dst_path <$> l) ->
  (forall x y, x ∈ l -> y ∈ l -> src_path x <> dst_path y) ->
  (forall s, s ∈ l -> exists b, fs st0 !! src_path s = Some (File b)) ->
  ends (for_each l (copy_step w) st0)
       (fun _ => copied st0 l) (fun e _ => copy_failed w l e).
Proof.
  intros Hnd Hdisj Hsrc. apply for_each_rule; [|apply copied_nil].
  intros done x rest st Hl HI.
  assert (Hx : x ∈ l) by (rewrite Hl; apply elem_of_app; right; left).
  assert (Hsf : src_path x ∉ dst_path <$> done).
  { intros (y & Hy & Hin)%list_elem_of_fmap.
    apply (Hdisj x y); [done | rewrite Hl; apply elem_of_app; by left | done]. }
  destruct (Hsrc x Hx) as [b Hb].
  assert (Hnow : fs st !! src_path x = Some (File b)).
  { destruct HI as (_ & _ & _ & Hframe & _). by rewrite Hframe. }
  rewrite (copy_step_file _ _ _ _ Hnow).
  destruct (exit_status w (copy_cmd x) =? 0) eqn:Hrc; simpl.
  - apply copied_snoc; try done.
    rewrite Hl, fmap_app, fmap_cons in Hnd.
    apply NoDup_app in Hnd as (_ & Hd & _).
    intros Hin. apply (Hd _ Hin). left.
  - exists x. apply Z.eqb_neq in Hrc. done.
Qed.

(** From any state: a loop that ends normally has copied every source
    that was there. *)
Lemma copy_pass_any w l st0 :
  NoDup (dst_path <$> l) ->
  (forall x y, x ∈ l -> y ∈ l -> src_path x <> dst_path y) ->
  ends (for_each l (copy_step w) st0)
       (fun _ => copied_from st0 l) (fun _ _ => True).
Proof.
  intros Hnd Hdisj. apply for_each_rule.
  - intros done x rest st Hl (Hframe & new & Hp & Hcp & Hdone).
    assert (Hx : x ∈ l) by (rewrite Hl; apply elem_of_app; right; left).
    assert (Hfresh : dst_path x ∉ dst_path <$> done).
    { rewrite Hl, fmap_app, fmap_cons in Hnd.
      apply NoDup_app in Hnd as (_ & Hd & _).
      intros Hin. apply (Hd _ Hin). left. }
    assert (Hsame : fs st !! src_path x = fs st0 !! src_path x).
    { apply Hframe. intros (y & Hy & Hin)%list_elem_of_fmap.
      apply (Hdisj x y); [done | rewrite Hl; apply elem_of_app; by left | done]. }
    rewrite copy_step_eq.
    destruct (fs st !! src_path x) as [n|] eqn:Hsrc.
    + cbn zeta.
      destruct (status_of w (copy_cmd x) st =? 0) eqn:Hrc; [|done].
      apply Z.eqb_eq in Hrc. rewrite Hrc.
      unfold status_of, copy_cmd in Hrc. rewrite Hsrc in Hrc.
      destruct n as [|b]; [done|].
      unfold ends, copied_from.
      cbn [fs procs emit log_proc effect_of write_file copy_cmd].
      rewrite Hsrc. cbn [fs procs emit log_proc write_file]. split.
      * intros p Hnot.
        rewrite fmap_app, not_elem_of_app, fmap_cons, not_elem_of_cons in Hnot.
        destruct Hnot as [Hd [Hpx _]].
        rewrite lookup_insert_ne by done. auto.
      * exists (new ++ [(copy_cmd x, 0)]). split; [by rewrite Hp, app_assoc|].
        split; [apply Forall_app; split; [done | by apply Forall_singleton]|].
        intros s Hs Hsome. apply elem_of_app in Hs as [Hs | Hs].
        -- destruct (Hdone s Hs Hsome) as (b' & H1 & H2 & H3).
           exists b'. split; [done|]. split; [|apply elem_of_app; by left].
           rewrite lookup_insert_ne; [done|].
           intros Heq. apply Hfresh. rewrite Heq. by apply list_elem_of_fmap_2.
        -- apply list_elem_of_singleton in Hs as ->.
           exists b. rewrite <- Hsame, lookup_insert_eq.
           split; [done|]. split; [done|]. apply elem_of_app. right. left.
    + simpl. split.
      * intros p Hnot. rewrite fmap_app, not_elem_of_app in Hnot.
        apply Hframe, Hnot.
      * exists new. split; [done|]. split; [done|].
        intros s Hs Hsome. apply elem_of_app in Hs as [Hs | Hs]; [by apply Hdone|].
        apply list_elem_of_singleton in Hs as ->.
        rewrite <- Hsame in Hsome. by destruct Hsome.
  - split; [done|]. exists (@nil (command * Z)).
    split; [by rewrite app_nil_r|]. split; [apply Forall_nil_2|].
    intros s Hs. by apply elem_of_nil in Hs.
Qed.

(** A size whose source is absent may as well not be in the list. *)
Lemma copy_pass_skips w s l :
  (forall y, y ∈ l -> dst_path y <> src_path s) ->
  forall st, fs st !! src_path s = None ->
  for_each l (copy_step w) st =
  for_each (filter (fun x => x <> s) l) (copy_step w) st.
Proof.
  intros Hdst. induction l as [|x l IH]; intros st Hnone; [done|].
  rewrite filter_cons. destruct (decide (x <> s)) as [Hne | Heq].
  - rewrite !for_each_cons. unfold bind.
    pose proof (copy_step_frame w x st) as Hframe.
    destruct (copy_step w x st) as [[[]|e] st1]; [|done]. simpl in Hframe.
    apply IH; [intros y Hy; apply Hdst; by right|].
    rewrite Hframe; [done|]. intros Heq. apply (Hdst x); [left | done].
  - apply dec_stable in Heq as ->.
    rewrite for_each_cons. unfold bind.
    rewrite copy_step_eq, Hnone.
    apply IH; [intros y Hy; apply Hdst; by right | done].
Qed.

(** Whatever the loop does, it leaves alone every path that is not the
    destination of one of its sizes. *)
Lemma copy_pass_frame w l st :
  ends (for_each l (copy_step w) st)
       (fun _ st1 => forall p, p ∉ dst_path <$> l -> fs st1 !! p = fs st !! p)
       (fun _ st1 => forall p, p ∉ dst_path <$> l -> fs st1 !! p = fs st !! p).
Proof.
  revert st. induction l as [|x l IH]; intros st; [done|].
  rewrite for_each_cons. apply ends_bind.
  pose proof (copy_step_frame w x st) as Hframe.
  destruct (copy_step w x st) as [[[]|e] st1]; simpl in *.
  - eapply ends_mono; [apply IH| |];
      intros ? st2 H2 p Hp; rewrite ?fmap_cons, not_elem_of_cons in Hp;
      destruct Hp as [Hp1 Hp2]; rewrite H2, Hframe; done.
  - intros p _. by rewrite Hframe.
Qed.

End Copy.

(** ** Exit statuses: which are checked, and what a failure does *)

Module Checked.
Import OS Py CreateIcon Progress Rules Steps.
Local Open Scope Z_scope.

Lemma checked_ok_same st0 st : procs st = procs st0 -> checked_ok st0 st.
Proof. intros H. exists (@nil (command * Z)).
  split; [by rewrite app_nil_r | apply Forall_nil_2].
Qed.

Lemma checked_ok_refl st : checked_ok st st.
Proof. by apply checked_ok_same. Qed.

Lemma checked_ok_trans st0 st1 st2 :
  checked_ok st0 st1 -> checked_ok st1 st2 -> checked_ok st0 st2.
Proof.
  intros (n1 & H1 & F1) (n2 & H2 & F2). exists (n1 ++ n2).
  split; [by rewrite H2, H1, app_assoc | by apply Forall_app].
Qed.

Lemma checked_raise_trans st0 st1 e st2 :
  checked_ok st0 st1 -> checked_raise st1 e st2 -> checked_raise st0 e st2.
Proof.
  intros (n1 & H1 & F1). destruct e as [rc c | p]; simpl.
  - intros (n2 & H2 & F2 & Hrc & Hc). exists (n1 ++ n2).
    repeat split; [|by apply Forall_app|done|done].
    by rewrite H2, H1, <- !app_assoc.
  - done.
Qed.

Lemma checked_ret {A} (a : A) : checked (ret a).
Proof. intros st. apply checked_ok_refl. Qed.

Lemma checked_bind {A B} (m : M A) (k : A -> M B) :
  checked m -> (forall a, checked (k a)) -> checked (bind m k).
Proof.
  intros Hm Hk st0. apply ends_bind.
  eapply ends_mono; [apply Hm | | done].
  intros a st1 H1. simpl.
  eapply ends_mono; [apply Hk | |]; simpl.
  - intros b st2. by apply checked_ok_trans.
  - intros e st2. by apply checked_raise_trans.
Qed.

Lemma checked_for_each {A} (l : list A) (body : A -> M unit) :
  (forall x, checked (body x)) -> checked (for_each l body).
Proof.
  intros Hb. induction l as [|x l IH]; [apply checked_ret|].
  apply (checked_bind (body x)); auto.
Qed.

Lemma checked_print line : checked (print line).
Proof. intros st. by apply checked_ok_same. Qed.

Lemma checked_exists p : checked (os_path_exists p).
Proof. intros st. apply checked_ok_refl. Qed.

Lemma procs_effect_of w c st : procs (effect_of w c st) = procs st.
Proof.
  destruct c as [size p | src dst | dir out]; simpl; [|by repeat case_match|done].
  by destruct (png_encode w (Child.image size)).
Qed.

(** [check=True]: a status other than 0 raises. *)
Lemma checked_run_check w c capture :
  is_conversion c = false -> checked (subprocess_run w c true capture).
Proof.
  intros Hc st. unfold subprocess_run, spawn.
  set (rc := status_of w c st).
  destruct (rc =? 0) eqn:Hrc; simpl.
  - exists [(c, rc)]. split; [simpl; by rewrite procs_effect_of|].
    apply Forall_singleton. by apply Z.eqb_eq.
  - exists (@nil (command * Z)). split; [reflexivity|].
    split; [apply Forall_nil_2|]. split; [by apply Z.eqb_neq | done].
Qed.

Lemma checked_render_step w size : checked (render_step w size).
Proof.
  apply checked_bind; [by apply checked_run_check | intros; apply checked_ret].
Qed.

Lemma checked_copy_step w size : checked (copy_step w size).
Proof.
  apply checked_bind; [apply checked_exists|]. intros [].
  - apply checked_bind; [by apply checked_run_check | intros; apply checked_print].
  - apply checked_ret.
Qed.

(** Both loops run every child with [check=True]. *)
Lemma checked_passes w :
  checked (bind (render_pass w) (fun _ => copy_pass w)).
Proof.
  apply checked_bind; [apply checked_for_each, checked_render_step | intros _].
  apply checked_for_each, checked_copy_step.
Qed.

End Checked.

(** ** Whole runs *)

Module Runs.
Import OS Py CreateIcon Progress Rules Steps Paths Render Copy.
Local Open Scope Z_scope.

(** The directory can be made, or is there already. *)
Lemma makedirs_ready st :
  (forall b, fs st !! iconset_dir <> Some (File b)) ->
  exists st1, os_makedirs iconset_dir true st = (Ok tt, st1)
    /\ stdout st1 = stdout st /\ procs st1 = procs st /\ writes st1 = writes st
    /\ fs st1 !! iconset_dir = Some Dir
    /\ (forall p, p <> iconset_dir -> fs st1 !! p = fs st !! p).
Proof.
  intros Hnf. unfold os_makedirs.
  destruct (fs st !! iconset_dir) as [[|b]|] eqn:Hd.
  - by exists st.
  - by destruct (Hnf b).
  - eexists. split; [done|]. cbn. rewrite lookup_insert_eq.
    repeat split; try done. intros p Hp. by rewrite lookup_insert_ne.
Qed.

Lemma written_png_all w (l : list Z) :
  (forall s, s ∈ l -> is_Some (png_encode w (Child.image s))) ->
  omap (written_png w) l = png_path <$> l.
Proof.
  induction l as [|x l IH]; intros H; [done|]. cbn.
  unfold written_png at 1.
  destruct (H x) as [b ->]; [left|]. cbn. f_equal.
  apply IH. intros s Hs. apply H. by right.
Qed.

(** A render loop that ended normally, looked at from its result. *)
Lemma render_pass_ok w st st' :
  render_pass w st = (Ok tt, st') -> rendered w st sizes st'.
Proof.
  intros Hrun.
  pose proof (render_pass_runs w sizes st pngs_distinct
                (render_pass_ok_inv w sizes st st' Hrun)) as H.
  unfold render_pass in Hrun. by rewrite Hrun in H.
Qed.

Lemma rendered_sources w st0 st :
  (forall s, s ∈ sizes -> is_Some (png_encode w (Child.image s))) ->
  rendered w st0 sizes st ->
  forall s, s ∈ retina_sizes ->
    exists b, png_encode w (Child.image (s * 2)) = Some b
      /\ fs st !! src_path s = Some (File b).
Proof.
  intros Henc (_ & _ & _ & _ & Hfs) s Hs.
  destruct (Henc (s * 2)) as [b Hb]; [by apply doubled_in_sizes|].
  exists b. split; [done|]. rewrite src_is_png.
  apply Hfs; [by apply doubled_in_sizes | done].
Qed.

(** The copy loop from a state where every source is a regular file. *)
Lemma copy_pass_from_sources w st :
  (forall s, s ∈ retina_sizes -> exists b, fs st !! src_path s = Some (File b)) ->
  ends (copy_pass w st)
       (fun _ => copied st retina_sizes)
       (fun e _ => copy_failed w retina_sizes e).
Proof.
  intros Hsrc. apply copy_pass_runs; [apply dsts_distinct | | done].
  intros x y. apply src_not_dst.
Qed.

(** What a run leaves when every child exits with 0 and every drawing
    child produces its file. *)
Lemma successful_run w st :
  (forall b, fs st !! iconset_dir <> Some (File b)) ->
  (forall c, c ∈ all_commands -> exit_status w c = 0) ->
  (forall s, s ∈ sizes -> is_Some (png_encode w (Child.image s))) ->
  exists st1 st2 st3,
    os_makedirs iconset_dir true st = (Ok tt, st1)
    /\ render_pass w st1 = (Ok tt, st2)
    /\ rendered w st1 sizes st2
    /\ copy_pass w st2 = (Ok tt, st3)
    /\ copied st2 retina_sizes st3
    /\ upto_copy w st = (Ok tt, st3)
    /\ main w st =
       (Ok tt, emit install_hint (emit banner
                 (log_proc iconutil_cmd 0
                    (write_file icns_path (icns_encode w (fs st3)) st3)))).
Proof.
  intros Hdir Hok Henc.
  destruct (makedirs_ready st Hdir) as (st1 & Hmk & _).
  assert (Hdraw : forall s, s ∈ sizes -> exit_status w (draw_cmd s) = 0).
  { intros s Hs. apply Hok. unfold all_commands.
    apply elem_of_app. left. by apply list_elem_of_fmap_2. }
  pose proof (render_pass_runs w sizes st1 pngs_distinct Hdraw) as Hr.
  fold (render_pass w) in Hr.
  destruct (render_pass w st1) as [[[]|e] st2] eqn:Hrun; [|done]. simpl in Hr.
  pose proof (copy_pass_from_sources w st2) as Hc.
  destruct (copy_pass w st2) as [[[]|e] st3] eqn:Hcp.
  - exists st1, st2, st3.
    assert (Hsrc : forall s, s ∈ retina_sizes ->
                     exists b, fs st2 !! src_path s = Some (File b)).
    { intros s Hs. destruct (rendered_sources w st1 st2 Henc Hr s Hs) as (b & _ & H).
      by exists b. }
    specialize (Hc Hsrc). simpl in Hc.
    assert (Hup : upto_copy w st = (Ok tt, st3)).
    { unfold upto_copy. rewrite (bind_ok _ _ _ _ _ Hmk).
      by rewrite (bind_ok _ _ _ _ _ Hrun). }
    split_and!; try done.
    rewrite main_split, (bind_ok _ _ _ _ _ Hup), package_eq. cbn zeta.
    rewrite Hok; [done|]. unfold all_commands.
    rewrite !elem_of_app. right. right. by apply list_elem_of_singleton.
  - exfalso.
    assert (Hsrc : forall s, s ∈ retina_sizes ->
                     exists b, fs st2 !! src_path s = Some (File b)).
    { intros s Hs. destruct (rendered_sources w st1 st2 Henc Hr s Hs) as (b & _ & H).
      by exists b. }
    specialize (Hc Hsrc). simpl in Hc. destruct Hc as (s & Hs & Hne & _).
    apply Hne, Hok. unfold all_commands.
    rewrite !elem_of_app. right. left. by apply list_elem_of_fmap_2.
Qed.

(** Among the sizes of a list with a drawing child that fails, one is the
    first. *)
Lemma first_failing_child w (l : list Z) s :
  s ∈ l ->
  exit_status w (draw_cmd s) <> 0 ->
  exists done f rest,
    l = done ++ f :: rest
    /\ (forall x, x ∈ done -> exit_status w (draw_cmd x) = 0)
    /\ exit_status w (draw_cmd f) <> 0.
Proof.
  induction l as [|x l IH]; intros Hs Hrc; [by apply elem_of_nil in Hs|].
  destruct (decide (exit_status w (draw_cmd x) = 0)) as [Hx | Hx].
  - apply elem_of_cons in Hs as [-> | Hs]; [done|].
    destruct (IH Hs Hrc) as (done & f & rest & -> & Hdone & Hf).
    exists (x :: done), f, rest. split; [done|]. split; [|done].
    intros y Hy. apply elem_of_cons in Hy as [-> | Hy]; auto.
  - exists [], x, l. split; [done|]. split; [|done].
    intros y Hy. by apply elem_of_nil in Hy.
Qed.

(** The run stops at a drawing child that fails after the ones before it
    went through. *)
Lemma render_failure_at w st done s rest :
  sizes = done ++ s :: rest ->
  (forall b, fs st !! iconset_dir <> Some (File b)) ->
  (forall x, x ∈ done -> exit_status w (draw_cmd x) = 0) ->
  exit_status w (draw_cmd s) <> 0 ->
  exists st',
    main w st =
      (Raise (CalledProcessError (exit_status w (draw_cmd s)) (draw_cmd s)), st')
    /\ procs st' =
       procs st ++ ((fun x => (draw_cmd x, 0)) <$> done)
                ++ [(draw_cmd s, exit_status w (draw_cmd s))]
    /\ exit_code (main w st).1 = 1.
Proof.
  intros Hl Hdir Hdone Hs. apply Z.eqb_neq in Hs.
  destruct (makedirs_ready st Hdir) as (st1 & Hmk & _ & Hp1 & _).
  assert (Hnd : NoDup (png_path <$> done)).
  { pose proof pngs_distinct as H. rewrite Hl, fmap_app in H.
    by apply NoDup_app in H as (H & _ & _). }
  pose proof (render_pass_runs w done st1 Hnd Hdone) as Hr.
  destruct (for_each done (render_step w) st1) as [[[]|e] st2] eqn:Hrun; [|done].
  destruct Hr as (Hp2 & _).
  assert (Hpass : render_pass w st1 =
                  (Raise (CalledProcessError (exit_status w (draw_cmd s)) (draw_cmd s)),
                   log_proc (draw_cmd s) (exit_status w (draw_cmd s)) st2)).
  { unfold render_pass. rewrite Hl, for_each_app, (bind_ok _ _ _ _ _ Hrun).
    rewrite for_each_cons. apply bind_raise.
    rewrite render_step_eq. cbn zeta. by rewrite Hs. }
  assert (Hmain : main w st =
                  (Raise (CalledProcessError (exit_status w (draw_cmd s)) (draw_cmd s)),
                   log_proc (draw_cmd s) (exit_status w (draw_cmd s)) st2)).
  { unfold main. rewrite (bind_ok _ _ _ _ _ Hmk). by apply bind_raise. }
  eexists. split; [exact Hmain|]. rewrite Hmain. cbn.
  by rewrite Hp2, Hp1, <- app_assoc.
Qed.

End Runs.

(** * The claims *)

Module Claims.
Import PyNum Quartz OS Py CreateIcon Progress Samples Plain.
Import Rules Steps Paths Render Copy Checked Runs.
Local Open Scope Z_scope.

(** ** The drawing *)

(** C6.  At size 100 the cursor rectangle is 22 wide and 4.5 high, the
    height being what [max(2, 100 * 0.045)] returns, and the border is
    stroked 1.5 wide, what [max(1, 100 * 0.015)] returns.  The numbers are
    exact in binary64. *)
Theorem measurements_at_size_100 :
  rect_w <$> (Child.cursor 100 ≫= rect_of) = Some 22%float
  /\ rect_h <$> (Child.cursor 100 ≫= rect_of) = Some 4.5%float
  /\ Child.border 100 ≫= stroke_width_of = Some 1.5%float
  /\ mul_if 100 0.22 = 22%float
  /\ max_if 2 (mul_if 100 0.045) = PyFloat 4.5
  /\ max_if 1 (mul_if 100 0.015) = PyFloat 1.5.
Proof. repeat split; vm_compute; reflexivity. Qed.

(** C7.  For every size of the script the chevron is the fourth thing
    painted: a stroke through the three points [(x, y+h)], [(x+w, y+h/2)],
    [(x, y)] with [x = 0.25*size], [y = 0.38*size], [w = 0.18*size],
    [h = 0.24*size]; its points span 25% to 43% of the size horizontally
    and 38% to 62% vertically; caps and joins are round and the line is
    [max(2, 0.055*size)] wide. *)
Theorem chevron_geometry (size : Z) :
  size ∈ sizes ->
  let x := mul_if size 0.25 in
  let y := mul_if size 0.38 in
  let w := mul_if size 0.18 in
  let h := mul_if size 0.24 in
  let glyph := [MoveTo x (y + h); LineTo (x + w) (y + h / 2); LineTo x y]%float in
  Child.chevron size =
    Some (StrokedPath (RGBA 0.0 0.85 0.45 1.0)
            (to_cgfloat (max_if 2 (mul_if size 0.055)))
            kCGLineCapRound kCGLineJoinRound glyph)
  /\ span (xs_of glyph) = Some (mul_if size 0.25, mul_if size 0.43)
  /\ span (ys_of glyph) = Some (mul_if size 0.38, mul_if size 0.62).
Proof.
  intros Hs. unfold sizes in Hs.
  repeat (apply elem_of_cons in Hs as [-> | Hs]); try (by apply elem_of_nil in Hs);
    repeat split; vm_compute; reflexivity.
Qed.

Lemma chevron_geometry_witness :
  Child.chevron 16 =
    Some (StrokedPath (RGBA 0.0 0.85 0.45 1.0) 2 kCGLineCapRound kCGLineJoinRound
            [MoveTo 4 9.92; LineTo 6.88 8; LineTo 4 6.08]%float).
Proof.
  refine (proj1 (chevron_geometry 16 _)).
  apply list_elem_of_In. simpl. tauto.
Defined.

(** ** Failures *)

(** C2.  When the run reaches the conversion and [iconutil] exits with a
    status other than 0, the script prints ["Error: "] followed by the
    captured stderr text as its last line, raises nothing, and the
    interpreter exits with 0; [iconutil] was the last child. *)
Theorem packaging_failure_is_reported w st st1 :
  exit_status w iconutil_cmd <> 0 ->
  upto_copy w st = (Ok tt, st1) ->
  exists st',
    main w st = (Ok tt, st')
    /\ stdout st' = stdout st1 ++ ["Error: " +:+ stderr_text w iconutil_cmd]
    /\ procs st' = procs st1 ++ [(iconutil_cmd, exit_status w iconutil_cmd)]
    /\ exit_code (main w st).1 = 0.
Proof.
  intros Hrc Hup. apply Z.eqb_neq in Hrc.
  rewrite main_split, (bind_ok _ _ _ _ _ Hup), package_eq. cbn zeta.
  rewrite Hrc. eexists. split; [reflexivity|]. by cbn.
Qed.

Lemma packaging_failure_is_reported_witness :
  exists st',
    main iconutil_rejects fresh = (Ok tt, st')
    /\ stdout st' =
       stdout (upto_copy iconutil_rejects fresh).2
         ++ ["Error: /tmp/Term.iconset:error: Failed to generate ICNS."]
    /\ procs st' = procs (upto_copy iconutil_rejects fresh).2 ++ [(iconutil_cmd, 1)]
    /\ exit_code (main iconutil_rejects fresh).1 = 0.
Proof.
  apply (packaging_failure_is_reported iconutil_rejects fresh
           (upto_copy iconutil_rejects fresh).2).
  - vm_compute. discriminate.
  - vm_compute. reflexivity.
Defined.

(** C5.  When the drawing child of any size exits with a status other
    than 0, the run ends at the first such child with [CalledProcessError]
    carrying its status: the children spawned are those of the sizes up to
    that one and no other, so no later size is rendered, nothing is copied
    or converted, and the interpreter exits with a status other than 0. *)
Theorem drawing_failure_aborts_run w st s :
  s ∈ sizes ->
  exit_status w (draw_cmd s) <> 0 ->
  (forall b, fs st !! iconset_dir <> Some (File b)) ->
  exists done f rest st',
    sizes = done ++ f :: rest
    /\ (forall x, x ∈ done -> exit_status w (draw_cmd x) = 0)
    /\ exit_status w (draw_cmd f) <> 0
    /\ main w st =
       (Raise (CalledProcessError (exit_status w (draw_cmd f)) (draw_cmd f)), st')
    /\ procs st' =
       procs st ++ ((fun x => (draw_cmd x, 0)) <$> done)
                ++ [(draw_cmd f, exit_status w (draw_cmd f))]
    /\ exit_code (main w st).1 = 1.
Proof.
  intros Hs Hrc Hdir.
  destruct (first_failing_child w sizes s Hs Hrc) as (done & f & rest & Hl & Hdone & Hf).
  destruct (render_failure_at w st done f rest Hl Hdir Hdone Hf)
    as (st' & Hmain & Hp & Hexit).
  by exists done, f, rest, st'.
Qed.

Lemma drawing_failure_aborts_run_witness :
  exists done f rest st',
    sizes = done ++ f :: rest
    /\ (forall x, x ∈ done -> exit_status draw64_crashes (draw_cmd x) = 0)
    /\ exit_status draw64_crashes (draw_cmd f) <> 0
    /\ main draw64_crashes fresh =
       (Raise (CalledProcessError (exit_status draw64_crashes (draw_cmd f))
                                  (draw_cmd f)), st')
    /\ procs st' =
       procs fresh ++ ((fun x => (draw_cmd x, 0)) <$> done)
                   ++ [(draw_cmd f, exit_status draw64_crashes (draw_cmd f))]
    /\ exit_code (main draw64_crashes fresh).1 = 1.
Proof.
  apply (drawing_failure_aborts_run draw64_crashes fresh 64).
  - apply list_elem_of_In. simpl. tauto.
  - vm_compute. discriminate.
  - intros b. vm_compute. discriminate.
Defined.

(** ** Runs that succeed *)

(** C8.  When every child exits with 0 and every drawing child produces
    its file, from a state in which none of the thirteen output paths is
    a directory, the run ends normally having written, in this order and
    nothing else, the 7 base PNG files, the 5 density variants and the
    [.icns] file, thirteen different paths that all hold a file at the
    end, and the last two lines printed are the success banner and the
    install hint. *)
Theorem full_run_writes_thirteen_files w st :
  (forall b, fs st !! iconset_dir <> Some (File b)) ->
  outputs_plain st ->
  (forall c, c ∈ all_commands -> exit_status w c = 0) ->
  (forall s, s ∈ sizes -> is_Some (png_encode w (Child.image s))) ->
  let base := png_path <$> sizes in
  let variants := dst_path <$> retina_sizes in
  exists st',
    main w st = (Ok tt, st')
    /\ writes st' = writes st ++ base ++ variants ++ [icns_path]
    /\ length base = 7%nat /\ length variants = 5%nat
    /\ NoDup (base ++ variants ++ [icns_path])
    /\ (forall p, p ∈ base ++ variants ++ [icns_path] ->
                  exists b, fs st' !! p = Some (File b))
    /\ exists earlier, stdout st' = earlier ++ [banner; install_hint].
Proof.
  intros Hdir _ Hok Henc base variants.
  destruct (successful_run w st Hdir Hok Henc)
    as (st1 & st2 & st3 & Hmk & _ & Hr & _ & Hc & _ & Hmain).
  destruct (makedirs_ready st Hdir) as (st1' & Hmk' & _ & _ & Hw1 & _).
  rewrite Hmk in Hmk'. injection Hmk' as <-.
  pose proof Hr as (_ & _ & Hw2 & _ & Hfs2).
  pose proof Hc as (_ & _ & Hw3 & Hframe3 & Hfs3).
  eexists. split; [exact Hmain|].
  cbn [writes emit log_proc write_file fs stdout procs]. subst base variants.
  split_and!.
  - rewrite Hw3, Hw2, Hw1, (written_png_all w sizes Henc).
    by rewrite <- !app_assoc.
  - done.
  - done.
  - pose proof all_paths_distinct as H. unfold all_paths in H.
    apply NoDup_cons in H as [_ H]. apply NoDup_cons in H as [Hi H].
    rewrite app_assoc. apply NoDup_app. split; [done|]. split.
    + intros p Hp ->%list_elem_of_singleton. done.
    + apply NoDup_singleton.
  - intros p Hp. rewrite !elem_of_app in Hp. destruct Hp as [Hp | [Hp | Hp]].
    + apply list_elem_of_fmap in Hp as (s & -> & Hs).
      destruct (Henc s Hs) as [b Hb]. exists b.
      rewrite lookup_insert_ne by (intros Heq; by apply (icns_not_png s)).
      rewrite Hframe3; [by apply Hfs2|].
      intros (x & Hx & Hin)%list_elem_of_fmap. by apply (png_not_dst s x).
    + apply list_elem_of_fmap in Hp as (x & -> & Hx).
      destruct (rendered_sources w st1 st2 Henc Hr x Hx) as (b & _ & Hb).
      exists b.
      rewrite lookup_insert_ne by (intros Heq; by apply (icns_not_dst x)).
      by rewrite Hfs3.
    + apply list_elem_of_singleton in Hp as ->.
      eexists. apply lookup_insert_eq.
  - eexists. rewrite <- app_assoc. reflexivity.
Qed.

Lemma full_run_writes_thirteen_files_witness :
  exists st',
    main healthy fresh = (Ok tt, st')
    /\ writes st' =
       [] ++ (png_path <$> sizes) ++ (dst_path <$> retina_sizes) ++ [icns_path]
    /\ length (png_path <$> sizes) = 7%nat
    /\ length (dst_path <$> retina_sizes) = 5%nat
    /\ NoDup ((png_path <$> sizes) ++ (dst_path <$> retina_sizes) ++ [icns_path])
    /\ (forall p,
          p ∈ (png_path <$> sizes) ++ (dst_path <$> retina_sizes) ++ [icns_path] ->
          exists b, fs st' !! p = Some (File b))
    /\ exists earlier, stdout st' = earlier ++ [banner; install_hint].
Proof.
  apply (full_run_writes_thirteen_files healthy fresh).
  - intros b. vm_compute. discriminate.
  - look_up_each_path.
  - intros c _. reflexivity.
  - intros s _. eexists. reflexivity.
Defined.

(** C10.  When [/tmp/Term.iconset] is already a directory,
    [os.makedirs(iconset_dir, exist_ok=True)] returns normally and changes
    nothing, where without [exist_ok] it would raise [FileExistsError];
    and a run whose children all succeed ends normally whatever files the
    directory held before (files, not directories, at the thirteen
    output paths), each of the thirteen files holding what this run
    produced. *)
Theorem existing_directory_is_accepted w st :
  fs st !! iconset_dir = Some Dir ->
  (forall c, c ∈ all_commands -> exit_status w c = 0) ->
  (forall s, s ∈ sizes -> is_Some (png_encode w (Child.image s))) ->
  os_makedirs iconset_dir true st = (Ok tt, st)
  /\ os_makedirs iconset_dir false st = (Raise (FileExistsError iconset_dir), st)
  /\ (outputs_plain st ->
      exists st',
        main w st = (Ok tt, st')
        /\ (forall s, s ∈ sizes ->
              fs st' !! png_path s = File <$> png_encode w (Child.image s))
        /\ (forall s, s ∈ retina_sizes ->
              fs st' !! dst_path s = File <$> png_encode w (Child.image (s * 2)))
        /\ is_Some (fs st' !! icns_path)).
Proof.
  intros Hd Hok Henc.
  assert (Hdir : forall b, fs st !! iconset_dir <> Some (File b))
    by (intros b; by rewrite Hd).
  split; [unfold os_makedirs; by rewrite Hd|].
  split; [unfold os_makedirs; by rewrite Hd|].
  intros _.
  destruct (successful_run w st Hdir Hok Henc)
    as (st1 & st2 & st3 & _ & _ & Hr & _ & Hc & _ & Hmain).
  pose proof Hr as (_ & _ & _ & _ & Hfs2).
  pose proof Hc as (_ & _ & _ & Hframe3 & Hfs3).
  eexists. split; [exact Hmain|].
  cbn [writes emit log_proc write_file fs stdout procs]. split_and!.
  - intros s Hs. destruct (Henc s Hs) as [b Hb]. rewrite Hb. cbn.
    rewrite lookup_insert_ne by (intros Heq; by apply (icns_not_png s)).
    rewrite Hframe3; [by apply Hfs2|].
    intros (x & Hx & Hin)%list_elem_of_fmap. by apply (png_not_dst s x).
  - intros x Hx.
    destruct (rendered_sources w st1 st2 Henc Hr x Hx) as (b & Hb & Hsrc).
    rewrite Hb. cbn.
    rewrite lookup_insert_ne by (intros Heq; by apply (icns_not_dst x)).
    by rewrite Hfs3.
  - rewrite lookup_insert_eq. by eexists.
Qed.

Lemma existing_directory_is_accepted_witness :
  fs leftover !! png_path 16 = Some (File [Byte.x00])
  /\ outputs_plain leftover
  /\ os_makedirs iconset_dir true leftover = (Ok tt, leftover)
  /\ exists st',
       main healthy leftover = (Ok tt, st')
       /\ fs st' !! png_path 16 = File <$> png_encode healthy (Child.image 16).
Proof.
  split; [vm_compute; reflexivity|].
  assert (Hplain : outputs_plain leftover) by look_up_each_path.
  split; [exact Hplain|].
  destruct (existing_directory_is_accepted healthy leftover)
    as (Hmk & _ & Hrun).
  - vm_compute. reflexivity.
  - intros c _. reflexivity.
  - intros s _. eexists. reflexivity.
  - destruct (Hrun Hplain) as (st' & Hmain & Hpng & _).
    split; [exact Hmk|]. exists st'. split; [exact Hmain|].
    apply Hpng. apply list_elem_of_In. simpl. tauto.
Defined.

(** ** The density variants *)

(** C9.  Twice every size of the copy list is a size of the render list,
    so once the render loop has ended normally, each drawing child having
    produced its file, every source of the copy loop is a regular file and
    the loop runs exactly as it would without its [os.path.exists] guard:
    the branch that skips is never taken. *)
Theorem copy_sources_always_exist w st st' :
  (forall s, s ∈ sizes -> is_Some (png_encode w (Child.image s))) ->
  render_pass w st = (Ok tt, st') ->
  (forall s, s ∈ retina_sizes ->
     (s * 2) ∈ sizes /\ exists b, fs st' !! src_path s = Some (File b))
  /\ copy_pass w st' = for_each retina_sizes (copy_step_unguarded w) st'.
Proof.
  intros Henc Hrun. pose proof (render_pass_ok w st st' Hrun) as Hr.
  assert (Hsrc : forall s, s ∈ retina_sizes ->
                   exists b, fs st' !! src_path s = Some (File b)).
  { intros s Hs. destruct (rendered_sources w st st' Henc Hr s Hs) as (b & _ & H).
    by exists b. }
  split; [intros s Hs; split; [by apply doubled_in_sizes | by apply Hsrc]|].
  unfold copy_pass.
  apply (for_each_agree
           (fun st1 => forall s, s ∈ retina_sizes ->
                         exists b, fs st1 !! src_path s = Some (File b)));
    [|done].
  intros x st1 Hx Hinv. split.
  - rewrite copy_step_eq, copy_step_unguarded_eq.
    by destruct (Hinv x Hx) as [b ->].
  - pose proof (copy_step_frame w x st1) as Hframe.
    destruct (copy_step w x st1) as [[[]|e] st2]; [|done]. simpl in *.
    intros s Hs. rewrite Hframe; [by apply Hinv|]. by apply src_not_dst.
Qed.

Lemma copy_sources_always_exist_witness :
  (forall s, s ∈ retina_sizes ->
     (s * 2) ∈ sizes
     /\ exists b, fs (render_pass healthy fresh).2 !! src_path s = Some (File b))
  /\ copy_pass healthy (render_pass healthy fresh).2 =
     for_each retina_sizes (copy_step_unguarded healthy) (render_pass healthy fresh).2.
Proof.
  apply (copy_sources_always_exist healthy fresh).
  - intros s _. eexists. reflexivity.
  - vm_compute. reflexivity.
Defined.

(** C1.  After a copy loop that ended normally, for every size [s] of
    the copy list whose base file [icon_<2s>x<2s>.png] is there and whose
    variant path was not a directory when the loop began, the file
    [icon_<s>x<s>@2x.png] holds the very same bytes, and it got them from
    a [cp] child of this loop that exited with 0: the loop spawns nothing
    but [cp] children, so nothing is rendered again. *)
Theorem retina_copy_is_byte_identical w st st' s :
  copy_pass w st = (Ok tt, st') ->
  s ∈ retina_sizes ->
  fs st !! dst_path s <> Some Dir ->
  is_Some (fs st' !! png_path (s * 2)) ->
  exists b new,
    fs st' !! dst_path s = Some (File b)
    /\ fs st' !! png_path (s * 2) = Some (File b)
    /\ procs st' = procs st ++ new
    /\ Forall (fun p => is_copy p.1 = true) new
    /\ (Cp (png_path (s * 2)) (dst_path s), 0) ∈ new.
Proof.
  intros Hrun Hs _ Hbase.
  pose proof (copy_pass_any w retina_sizes st dsts_distinct) as Hc.
  fold (copy_pass w) in Hc. rewrite Hrun in Hc. simpl in Hc.
  destruct Hc as (Hframe & new & Hp & Hcp & Hdone).
  { intros x y. apply src_not_dst. }
  assert (Hsame : fs st' !! src_path s = fs st !! src_path s).
  { apply Hframe. intros (y & Hy & Hin)%list_elem_of_fmap.
    by apply (src_not_dst s y). }
  rewrite <- src_is_png, Hsame in Hbase.
  destruct (Hdone s Hs Hbase) as (b & Hsrc & Hdst & Hin).
  exists b, new. rewrite <- src_is_png, Hsame. done.
Qed.

Lemma retina_copy_is_byte_identical_witness :
  let st := (render_pass healthy fresh).2 in
  let st' := (copy_pass healthy st).2 in
  exists b new,
    fs st' !! dst_path 16 = Some (File b)
    /\ fs st' !! png_path (16 * 2) = Some (File b)
    /\ procs st' = procs st ++ new
    /\ Forall (fun p => is_copy p.1 = true) new
    /\ (Cp (png_path (16 * 2)) (dst_path 16), 0) ∈ new.
Proof.
  apply (retina_copy_is_byte_identical healthy
           (render_pass healthy fresh).2
           (copy_pass healthy (render_pass healthy fresh).2).2 16).
  - vm_compute. reflexivity.
  - apply list_elem_of_In. simpl. tauto.
  - vm_compute. discriminate.
  - vm_compute. eexists. reflexivity.
Defined.

(** C4.  When the source of a size of the copy list does not exist, the
    copy step of that size ends normally and changes nothing: no child, no
    line, no file.  The whole loop then goes as if the size were not in
    the list, and whatever way it ends it leaves the path of that
    density variant as it found it. *)
Theorem absent_source_is_skipped w st s :
  s ∈ retina_sizes ->
  fs st !! src_path s = None ->
  copy_step w s st = (Ok tt, st)
  /\ copy_pass w st =
     for_each (filter (fun x => x <> s) retina_sizes) (copy_step w) st
  /\ fs (copy_pass w st).2 !! dst_path s = fs st !! dst_path s.
Proof.
  intros Hs Hnone.
  assert (Hskip : copy_pass w st =
            for_each (filter (fun x => x <> s) retina_sizes) (copy_step w) st).
  { apply copy_pass_skips; [|done].
    intros y Hy Heq. by apply (src_not_dst s y). }
  split; [by rewrite copy_step_eq, Hnone|]. split; [done|].
  rewrite Hskip.
  pose proof (copy_pass_frame w (filter (fun x => x <> s) retina_sizes) st) as Hf.
  assert (Hnot : dst_path s ∉ dst_path <$> filter (fun x => x <> s) retina_sizes).
  { intros (y & Heq & Hy)%list_elem_of_fmap.
    apply list_elem_of_filter in Hy as [Hne Hy].
    apply Hne. symmetry. by apply dst_path_inj. }
  destruct (for_each _ _ st) as [[[]|e] st1]; simpl in *; by apply Hf.
Qed.

Lemma absent_source_is_skipped_witness :
  copy_step healthy 16 fresh = (Ok tt, fresh)
  /\ copy_pass healthy fresh =
     for_each (filter (fun x => x <> 16) retina_sizes) (copy_step healthy) fresh
  /\ fs (copy_pass healthy fresh).2 !! dst_path 16 = fs fresh !! dst_path 16.
Proof.
  apply (absent_source_is_skipped healthy fresh 16).
  - apply list_elem_of_In. simpl. tauto.
  - vm_compute. reflexivity.
Defined.

(** ** Which exit statuses count *)

(** C3, as claimed: were the conversion's exit status the only one
    checked, two machines that differ only in how a drawing child exits
    would end the run the same way.  They do not: with the drawing child
    of size 64 exiting with 1 the run raises, with 0 it ends normally. *)
Lemma drawing_status_decides_the_run :
  ~ (forall (w1 w2 : World) (st : state),
        exit_status w1 iconutil_cmd = exit_status w2 iconutil_cmd ->
        stderr_text w1 = stderr_text w2 ->
        png_encode w1 = png_encode w2 ->
        icns_encode w1 = icns_encode w2 ->
        (main w1 st).1 = (main w2 st).1).
Proof.
  intros H.
  specialize (H healthy draw64_crashes fresh eq_refl eq_refl eq_refl eq_refl).
  vm_compute in H. discriminate.
Qed.

(** C3, amended.  Every child's exit status is checked and acted upon.
    The drawing and copy children run with [check=True]: the first of
    them to exit with a status other than 0 is the last child of the
    run, which raises [CalledProcessError] with that status; so in a run
    that ends normally all of them exited with 0.  The conversion runs
    last and unchecked: its status never raises, and decides whether the
    last line printed is the install hint or the error text.  The only
    other way a run ends is [FileExistsError] for the directory, before
    any child. *)
Theorem every_exit_status_is_checked w st :
  match main w st with
  | (Ok _, st') =>
      exists new rc,
        procs st' = procs st ++ new ++ [(iconutil_cmd, rc)]
        /\ Forall (fun p => p.2 = 0) new
        /\ last (stdout st') =
           Some (if rc =? 0 then install_hint
                 else "Error: " +:+ stderr_text w iconutil_cmd)
  | (Raise (CalledProcessError rc c), st') =>
      exists new,
        procs st' = procs st ++ new ++ [(c, rc)]
        /\ Forall (fun p => p.2 = 0) new
        /\ rc <> 0 /\ is_conversion c = false
  | (Raise (FileExistsError p), st') =>
      p = iconset_dir /\ st' = st
  end.
Proof.
  unfold main, bind at 1.
  assert (Hmk : (exists st1, os_makedirs iconset_dir true st = (Ok tt, st1)
                             /\ procs st1 = procs st)
                \/ os_makedirs iconset_dir true st
                   = (Raise (FileExistsError iconset_dir), st)).
  { unfold os_makedirs. destruct (fs st !! iconset_dir) as [[|b]|]; eauto. }
  destruct Hmk as [(st1 & -> & Hp1) | ->]; [|done].
  pose proof (checked_passes w st1) as Hc.
  unfold bind at 1.
  change (match render_pass w st1 with
          | (Ok a, st2) => (copy_pass w ;; package w)%py st2
          | (Raise e, st2) => (Raise e, st2)
          end)
    with (bind (render_pass w) (fun _ => bind (copy_pass w) (fun _ => package w)) st1).
  rewrite <- bind_assoc. unfold bind at 1.
  destruct (bind (render_pass w) (fun _ => copy_pass w) st1) as [[[]|e] st3];
    simpl in Hc.
  - destruct Hc as (new & Hp3 & Hz).
    rewrite package_eq. cbn zeta.
    destruct (exit_status w iconutil_cmd =? 0) eqn:Hrc; cbn beta iota;
      exists new, (exit_status w iconutil_cmd);
      cbn [procs stdout emit log_proc write_file];
      rewrite Hrc, Hp3, Hp1, <- ?app_assoc, ?last_snoc;
      split_and!; try done.
    by rewrite (app_assoc _ [banner]), last_snoc.
  - destruct e as [rc c | p]; [|done].
    destruct Hc as (new & Hp3 & Hz & Hrc & Hconv).
    exists new. by rewrite Hp3, Hp1.
Qed.

End Claims.

(** ** File names for any size *)

Module NameFacts.
Import OS Py CreateIcon Names.

Lemma pretty_N_go_no_x (n : N) (s : string) :
  no_x s -> no_x (pretty_N_go n s).
Proof.
  revert s. induction (N.lt_wf_0 n) as [n _ IH]; intros s Hs.
  destruct (decide (n = 0)%N) as [-> | Hn]; [by rewrite pretty_N_go_0|].
  rewrite pretty_N_go_step by lia. apply IH.
  - apply N.div_lt; lia.
  - split; [|done]. unfold pretty_N_char. by repeat case_match.
Qed.

Lemma pretty_N_no_x (n : N) : no_x (pretty n).
Proof.
  unfold pretty, pretty_N. case_decide; [by split|].
  by apply pretty_N_go_no_x.
Qed.

(** The decimal form of an integer has no [x] in it. *)
Lemma pretty_Z_no_x (z : Z) : no_x (pretty z).
Proof.
  destruct z as [|p|p]; unfold pretty, pretty_Z.
  - by split.
  - apply pretty_N_no_x.
  - split; [done | apply pretty_N_no_x].
Qed.

(** Two strings cut at their first [x] agree on both sides of it. *)
Lemma cut_at_x (u u' r r' : string) :
  no_x u -> no_x u' ->
  u +:+ String "x" r = u' +:+ String "x" r' ->
  u = u' /\ r = r'.
Proof.
  revert u'. induction u as [|c u IH]; intros [|c' u'] Hu Hu' Heq; simpl in *.
  - by injection Heq as ->.
  - injection Heq as <- _. by destruct Hu' as [[] _].
  - injection Heq as -> _. by destruct Hu as [[] _].
  - injection Heq as -> Heq.
    destruct (IH u' (proj2 Hu) (proj2 Hu') Heq) as [-> ->]. done.
Qed.

Lemma name_inj (a b tail tail' : string) (s t : Z) :
  a +:+ b +:+ pretty s +:+ "x" +:+ pretty s +:+ tail
  = a +:+ b +:+ pretty t +:+ "x" +:+ pretty t +:+ tail' ->
  s = t /\ tail = tail'.
Proof.
  intros Heq. do 2 apply (inj (String.append _)) in Heq.
  apply cut_at_x in Heq as [Hp Hr]; [|apply pretty_Z_no_x..].
  apply (inj pretty) in Hp as ->. split; [done|].
  by apply (inj (String.append _)) in Hr.
Qed.

End NameFacts.

(** ** Footprints and traces *)

Module FootprintFacts.
Import OS Py CreateIcon Footprint Rules Steps Checked.
Local Open Scope Z_scope.

Lemma kept_same paths st0 st : fs st = fs st0 -> kept paths st0 st.
Proof. intros Heq p. by rewrite Heq. Qed.

Lemma kept_write paths q b st :
  q ∈ paths -> kept paths st (write_file q b st).
Proof.
  intros Hq p. cbn. split.
  - intros Hp. rewrite lookup_insert_ne; [done|]. by intros ->.
  - intros Hsome. apply lookup_insert_is_Some'. by right.
Qed.

Lemma kept_trans paths st0 st1 st2 :
  kept paths st0 st1 -> kept paths st1 st2 -> kept paths st0 st2.
Proof.
  intros H1 H2 p. destruct (H1 p) as [Ha Hb], (H2 p) as [Hc Hd]. split.
  - intros Hp. by rewrite Hc, Ha.
  - auto.
Qed.

Lemma kept_mono paths paths' st0 st :
  (forall p, p ∈ paths -> p ∈ paths') -> kept paths st0 st -> kept paths' st0 st.
Proof.
  intros Hsub H p. destruct (H p) as [Ha Hb]. split; [|done].
  intros Hp. apply Ha. intros Hin. by apply Hp, Hsub.
Qed.

Lemma confined_mono {A} paths paths' (m : M A) :
  (forall p, p ∈ paths -> p ∈ paths') -> confined paths m -> confined paths' m.
Proof. intros Hsub Hm st. by eapply kept_mono. Qed.

Lemma confined_ret {A} paths (a : A) : confined paths (ret a).
Proof. intros st. by apply kept_same. Qed.

Lemma confined_bind {A B} paths paths' (m : M A) (k : A -> M B) :
  confined paths m -> (forall a, confined paths' (k a)) ->
  confined (paths ++ paths') (bind m k).
Proof.
  intros Hm Hk st. unfold bind. specialize (Hm st).
  destruct (m st) as [[a|e] st1]; simpl in *.
  - eapply kept_trans.
    + eapply kept_mono; [|exact Hm]. intros p Hp. apply elem_of_app. by left.
    + eapply kept_mono; [|apply Hk]. intros p Hp. apply elem_of_app. by right.
  - eapply kept_mono; [|exact Hm]. intros p Hp. apply elem_of_app. by left.
Qed.

Lemma confined_for_each {A} (f : A -> string) (l : list A) (body : A -> M unit) :
  (forall x, confined [f x] (body x)) -> confined (f <$> l) (for_each l body).
Proof.
  intros Hb. induction l as [|x l IH]; [apply confined_ret|].
  change (confined ([f x] ++ (f <$> l)) (bind (body x) (fun _ => for_each l body))).
  apply confined_bind; auto.
Qed.

Lemma confined_print paths line : confined paths (print line).
Proof. intros st. by apply kept_same. Qed.

(** A child changes at most the file it writes. *)
Lemma kept_spawn w c st q :
  match c with
  | Python3 _ p => p = q
  | Cp _ dst => dst = q
  | Iconutil _ out => out = q
  end ->
  kept [q] st (spawn w c st).2.
Proof.
  intros Hq. unfold spawn. cbn.
  destruct (status_of w c st =? 0); [|by apply kept_same].
  intros p. cbn [fs log_proc].
  destruct c as [size png | src dst | dir out]; subst; cbn [effect_of].
  - destruct (png_encode w (Child.image size)); cbn [fs emit];
      [apply kept_write; left | by apply kept_same].
  - destruct (fs st !! src) as [[|b]|];
      [by apply kept_same | apply kept_write; left | by apply kept_same].
  - apply kept_write. left.
Qed.

Lemma confined_run w c check capture q :
  match c with
  | Python3 _ p => p = q
  | Cp _ dst => dst = q
  | Iconutil _ out => out = q
  end ->
  confined [q] (subprocess_run w c check capture).
Proof.
  intros Hq st. pose proof (kept_spawn w c st q Hq) as H.
  unfold subprocess_run. destruct (spawn w c st) as [rc st1]. simpl in H.
  by destruct (check && negb (rc =? 0)).
Qed.

Lemma confined_render_step w size : confined [png_path size] (render_step w size).
Proof.
  apply (confined_bind [png_path size] []);
    [by apply confined_run | intros; apply confined_ret].
Qed.

Lemma confined_copy_step w size : confined [dst_path size] (copy_step w size).
Proof.
  apply (confined_bind [] [dst_path size]).
  - intros st. by apply kept_same.
  - intros []; [|apply confined_ret].
    apply (confined_bind [dst_path size] []);
      [by apply confined_run | intros; apply confined_print].
Qed.

Lemma confined_makedirs p b : confined [p] (os_makedirs p b).
Proof.
  intros st q. unfold os_makedirs.
  destruct (fs st !! p) as [[|c]|] eqn:Hp; [by destruct b| done |].
  cbn. split.
  - intros Hq. rewrite lookup_insert_ne; [done|]. intros ->. apply Hq. left.
  - intros Hsome. apply lookup_insert_is_Some'. by right.
Qed.

Lemma confined_package w : confined [icns_path] (package w).
Proof.
  apply (confined_bind [icns_path] []); [by apply confined_run|].
  intros r. destruct (returncode r =? 0); [|apply confined_print].
  apply (confined_bind [] []); intros; apply confined_print.
Qed.

Lemma confined_main w : confined all_paths (main w).
Proof.
  apply (confined_mono ([iconset_dir] ++ (png_path <$> sizes)
                          ++ (dst_path <$> retina_sizes) ++ [icns_path])).
  { intros p. unfold all_paths.
    rewrite !elem_of_app, !elem_of_cons, elem_of_app, elem_of_nil. tauto. }
  unfold main, render_pass, copy_pass.
  apply confined_bind; [apply confined_makedirs | intros _].
  apply confined_bind; [apply confined_for_each, confined_render_step | intros _].
  apply confined_bind; [apply confined_for_each, confined_copy_step | intros _].
  apply confined_package.
Qed.

(** *** Traces *)

Lemma spawns_mono {A} cmds cmds' (m : M A) :
  cmds `sublist_of` cmds' -> spawns cmds m -> spawns cmds' m.
Proof.
  intros Hsub Hm st. destruct (Hm st) as (new & Hp & Hs).
  exists new. split; [done | by etrans].
Qed.

Lemma spawns_quiet {A} (m : M A) :
  (forall st, procs (m st).2 = procs st) -> spawns [] m.
Proof.
  intros H st. exists []. by rewrite app_nil_r, H.
Qed.

Lemma spawns_bind {A B} c1 c2 (m : M A) (k : A -> M B) :
  spawns c1 m -> (forall a, spawns c2 (k a)) -> spawns (c1 ++ c2) (bind m k).
Proof.
  intros Hm Hk st. unfold bind. destruct (Hm st) as (n1 & Hp1 & Hs1).
  destruct (m st) as [[a|e] st1]; simpl in *.
  - destruct (Hk a st1) as (n2 & Hp2 & Hs2). exists (n1 ++ n2).
    split; [by rewrite Hp2, Hp1, app_assoc|].
    rewrite fmap_app. by apply sublist_app.
  - exists n1. split; [done|]. by apply sublist_inserts_r.
Qed.

Lemma spawns_for_each {A} (f : A -> command) (l : list A) (body : A -> M unit) :
  (forall x, spawns [f x] (body x)) -> spawns (f <$> l) (for_each l body).
Proof.
  intros Hb. induction l as [|x l IH]; [by apply spawns_quiet|].
  change (spawns ([f x] ++ (f <$> l)) (bind (body x) (fun _ => for_each l body))).
  apply spawns_bind; auto.
Qed.

Lemma spawns_run w c check capture : spawns [c] (subprocess_run w c check capture).
Proof.
  intros st. unfold subprocess_run, spawn.
  exists [(c, status_of w c st)]. split; [|done].
  destruct (check && negb (status_of w c st =? 0)); cbn;
    destruct (status_of w c st =? 0); cbn; by rewrite ?procs_effect_of.
Qed.

Lemma spawns_render_step w size : spawns [draw_cmd size] (render_step w size).
Proof.
  apply (spawns_bind [draw_cmd size] []);
    [apply spawns_run | intros; by apply spawns_quiet].
Qed.

Lemma spawns_copy_step w size : spawns [copy_cmd size] (copy_step w size).
Proof.
  apply (spawns_bind [] [copy_cmd size]); [by apply spawns_quiet|].
  intros []; [|apply (spawns_mono []); [apply sublist_nil_l | by apply spawns_quiet]].
  apply (spawns_bind [copy_cmd size] []);
    [apply spawns_run | intros; by apply spawns_quiet].
Qed.

Lemma spawns_package w : spawns [iconutil_cmd] (package w).
Proof.
  apply (spawns_bind [iconutil_cmd] []); [apply spawns_run|].
  intros r. destruct (returncode r =? 0); [|by apply spawns_quiet].
  apply (spawns_bind [] []); intros; by apply spawns_quiet.
Qed.

Lemma spawns_main w : spawns all_commands (main w).
Proof.
  apply (spawns_bind [] all_commands).
  { apply spawns_quiet. intros st. unfold os_makedirs.
    destruct (fs st !! iconset_dir) as [[|b]|]; done. }
  intros _. unfold all_commands, render_pass, copy_pass.
  apply spawns_bind; [apply spawns_for_each, spawns_render_step | intros _].
  apply spawns_bind; [apply spawns_for_each, spawns_copy_step | intros _].
  apply spawns_package.
Qed.

Lemma all_commands_distinct : NoDup all_commands.
Proof. apply (bool_decide_unpack _). vm_compute. exact I. Qed.

End FootprintFacts.

(** ** More about whole runs *)

Module RunFacts.
Import OS Py CreateIcon Progress Footprint.
Import Rules Steps Paths Render Copy Checked Runs.
Local Open Scope Z_scope.

(** Among the sizes of a list with a child that fails, one is the first. *)
Lemma first_failing (cmd : Z -> command) w (l : list Z) s :
  s ∈ l ->
  exit_status w (cmd s) <> 0 ->
  exists done f rest,
    l = done ++ f :: rest
    /\ (forall x, x ∈ done -> exit_status w (cmd x) = 0)
    /\ exit_status w (cmd f) <> 0.
Proof.
  induction l as [|x l IH]; intros Hs Hrc; [by apply elem_of_nil in Hs|].
  destruct (decide (exit_status w (cmd x) = 0)) as [Hx | Hx].
  - apply elem_of_cons in Hs as [-> | Hs]; [done|].
    destruct (IH Hs Hrc) as (done & f & rest & -> & Hdone & Hf).
    exists (x :: done), f, rest. split; [done|]. split; [|done].
    intros y Hy. apply elem_of_cons in Hy as [-> | Hy]; auto.
  - exists [], x, l. split; [done|]. split; [|done].
    intros y Hy. by apply elem_of_nil in Hy.
Qed.

(** The copy loop stops at a copy child that fails after the ones before
    it went through. *)
Lemma copy_failure_at w st done f rest :
  retina_sizes = done ++ f :: rest ->
  (forall s, s ∈ retina_sizes -> exists b, fs st !! src_path s = Some (File b)) ->
  (forall x, x ∈ done -> exit_status w (copy_cmd x) = 0) ->
  exit_status w (copy_cmd f) <> 0 ->
  exists st1,
    copied st done st1
    /\ copy_pass w st =
       (Raise (CalledProcessError (exit_status w (copy_cmd f)) (copy_cmd f)),
        log_proc (copy_cmd f) (exit_status w (copy_cmd f)) st1).
Proof.
  intros Hl Hsrc Hdone Hf.
  assert (Hin : forall x, x ∈ done -> x ∈ retina_sizes).
  { intros x Hx. rewrite Hl. apply elem_of_app. by left. }
  assert (Hfin : f ∈ retina_sizes).
  { rewrite Hl. apply elem_of_app. right. left. }
  assert (Hnd : NoDup (dst_path <$> done)).
  { pose proof dsts_distinct as H. rewrite Hl, fmap_app in H.
    by apply NoDup_app in H as (H & _ & _). }
  pose proof (copy_pass_runs w done st Hnd) as Hrun.
  destruct (for_each done (copy_step w) st) as [[[]|e] st1] eqn:Hpass.
  - simpl in Hrun. exists st1.
    assert (Hc : copied st done st1).
    { apply Hrun; [|by auto]. intros x y Hx Hy. apply src_not_dst; auto. }
    split; [done|].
    unfold copy_pass. rewrite Hl, for_each_app, (bind_ok _ _ _ _ _ Hpass).
    rewrite for_each_cons. apply bind_raise.
    destruct (Hsrc f Hfin) as [b Hb].
    assert (Hnow : fs st1 !! src_path f = Some (File b)).
    { destruct Hc as (_ & _ & _ & Hframe & _). rewrite Hframe; [done|].
      intros (y & Hy & Hyin)%list_elem_of_fmap.
      apply (src_not_dst f y); auto. }
    rewrite (copy_step_file _ _ _ _ Hnow).
    apply Z.eqb_neq in Hf. by rewrite Hf.
  - exfalso. simpl in Hrun.
    destruct Hrun as (s & Hs & Hne & _); [|by auto|by auto].
    intros x y Hx Hy. apply src_not_dst; auto.
Qed.

(** A path that holds a file still holds one after a copy step. *)
Lemma copy_step_keeps_files w x st p b :
  fs st !! p = Some (File b) ->
  exists b', fs (copy_step w x st).2 !! p = Some (File b').
Proof.
  intros Hp. rewrite copy_step_eq.
  destruct (fs st !! src_path x) as [n|] eqn:Hsrc; [|by exists b]. cbn zeta.
  destruct (status_of w (copy_cmd x) st =? 0); [|by exists b].
  cbn. rewrite Hsrc. destruct n as [|c]; [by exists b|]. cbn.
  destruct (decide (dst_path x = p)) as [<- | Hne].
  - exists c. by rewrite lookup_insert_eq.
  - exists b. by rewrite lookup_insert_ne.
Qed.

Lemma copy_pass_keeps_files w (l : list Z) st p b :
  fs st !! p = Some (File b) ->
  exists b', fs (for_each l (copy_step w) st).2 !! p = Some (File b').
Proof.
  revert st b. induction l as [|x l IH]; intros st b Hp; [by exists b|].
  rewrite for_each_cons. unfold bind.
  destruct (copy_step_keeps_files w x st p b Hp) as [b1 H1].
  destruct (copy_step w x st) as [[[]|e] st1]; simpl in *; eauto.
Qed.

(** What the copy loop prints is what it wrote: one line for each
    destination, once the copy went through. *)
Lemma copy_announcements w (l : list Z) st :
  exists done,
    done `sublist_of` l
    /\ stdout (for_each l (copy_step w) st).2
       = stdout st ++ ((fun s => "Created " +:+ dst_path s) <$> done)
    /\ writes (for_each l (copy_step w) st).2
       = writes st ++ (dst_path <$> done)
    /\ forall s, s ∈ done ->
         exists b, fs (for_each l (copy_step w) st).2 !! dst_path s = Some (File b).
Proof.
  revert st. induction l as [|x l IH]; intros st.
  { exists []. simpl. rewrite !app_nil_r. split_and!; try done.
    intros s Hs. by apply elem_of_nil in Hs. }
  rewrite for_each_cons. unfold bind. rewrite copy_step_eq.
  destruct (fs st !! src_path x) as [n|] eqn:Hsrc.
  - cbn zeta. destruct (status_of w (copy_cmd x) st =? 0) eqn:Hrc.
    + apply Z.eqb_eq in Hrc. unfold status_of, copy_cmd in Hrc.
      rewrite Hsrc in Hrc. destruct n as [|b]; [done|].
      cbn [effect_of copy_cmd]. rewrite Hsrc.
      set (st1 := emit _ _).
      destruct (IH st1) as (done & Hsub & Hout & Hw & Hfs).
      exists (x :: done). split_and!.
      * by apply sublist_skip.
      * rewrite Hout. subst st1. cbn. by rewrite <- app_assoc.
      * rewrite Hw. subst st1. cbn. by rewrite <- app_assoc.
      * intros s Hs. apply elem_of_cons in Hs as [-> | Hs]; [|by apply Hfs].
        apply (copy_pass_keeps_files w l st1 _ b).
        subst st1. cbn. by rewrite lookup_insert_eq.
    + exists []. simpl. rewrite !app_nil_r. split_and!; try done.
      * apply sublist_nil_l.
      * intros s Hs. by apply elem_of_nil in Hs.
  - destruct (IH st) as (done & Hsub & Hout & Hw & Hfs).
    exists done. split_and!; try done. by apply sublist_cons.
Qed.

(** *** Runs whose encoders may write nothing *)

Lemma no_dir_ret {A} (a : A) : makes_no_dir (ret a).
Proof. by intros st p. Qed.

Lemma no_dir_bind {A B} (m : M A) (k : A -> M B) :
  makes_no_dir m -> (forall a, makes_no_dir (k a)) -> makes_no_dir (bind m k).
Proof.
  intros Hm Hk st p. unfold bind. specialize (Hm st p).
  destruct (m st) as [[a|e] st1]; simpl in *; [|done].
  intros H. by apply Hm, (Hk a).
Qed.

Lemma no_dir_for_each {A} (l : list A) (body : A -> M unit) :
  (forall x, makes_no_dir (body x)) -> makes_no_dir (for_each l body).
Proof.
  intros Hb. induction l as [|x l IH]; [apply no_dir_ret|].
  change (makes_no_dir (bind (body x) (fun _ => for_each l body))).
  apply no_dir_bind; auto.
Qed.

Lemma no_dir_write q b st p :
  fs (write_file q b st) !! p = Some Dir -> fs st !! p = Some Dir.
Proof.
  cbn. destruct (decide (q = p)) as [-> | Hne].
  - by rewrite lookup_insert_eq.
  - by rewrite lookup_insert_ne.
Qed.

(** A child writes files, never a directory. *)
Lemma no_dir_run w c check capture : makes_no_dir (subprocess_run w c check capture).
Proof.
  intros st p. unfold subprocess_run, spawn.
  destruct (check && negb (status_of w c st =? 0)); cbn;
    (destruct (status_of w c st =? 0); [|done]);
    destruct c as [size png | src dst | dir out]; cbn [effect_of];
    repeat case_match; cbn [fs emit log_proc]; try done; apply no_dir_write.
Qed.

Lemma no_dir_print line : makes_no_dir (print line).
Proof. by intros st p. Qed.

Lemma no_dir_render_step w size : makes_no_dir (render_step w size).
Proof. apply no_dir_bind; [apply no_dir_run | intros; apply no_dir_ret]. Qed.

Lemma no_dir_copy_step w size : makes_no_dir (copy_step w size).
Proof.
  apply no_dir_bind; [by intros st p|].
  intros []; [|apply no_dir_ret].
  apply no_dir_bind; [apply no_dir_run | intros; apply no_dir_print].
Qed.

Lemma iconset_dir_not_png s : s ∈ sizes -> png_path s <> iconset_dir.
Proof.
  intros Hs Heq.
  pose proof all_paths_distinct as H. unfold all_paths in H.
  apply NoDup_cons in H as [H _].
  apply H. rewrite <- Heq. right. apply elem_of_app. left.
  by apply list_elem_of_fmap_2.
Qed.

(** With drawing and copy children that exit with 0 both loops go
    through, whether or not the encoders produced anything. *)
Lemma loops_go_through w st :
  pngs_plain st ->
  (forall c, c ∈ all_commands -> is_conversion c = false -> exit_status w c = 0) ->
  exists st2, bind (render_pass w) (fun _ => copy_pass w) st = (Ok tt, st2).
Proof.
  intros Hplain Hok.
  assert (Hdraw : forall s, s ∈ sizes -> exit_status w (draw_cmd s) = 0).
  { intros s Hs. apply Hok; [|done]. unfold all_commands.
    apply elem_of_app. left. by apply list_elem_of_fmap_2. }
  pose proof (render_pass_runs w sizes st pngs_distinct Hdraw) as Hr.
  fold (render_pass w) in Hr.
  pose proof (no_dir_for_each sizes (render_step w) (no_dir_render_step w) st) as Hnd.
  fold (render_pass w) in Hnd.
  destruct (render_pass w st) as [[[]|e] st1] eqn:Hrun; [|done].
  rewrite (bind_ok _ _ _ _ _ Hrun). simpl in Hnd.
  assert (Hplain1 : pngs_plain st1).
  { intros s Hs Hd. by apply (Hplain s Hs), Hnd. }
  assert (Hends : ends (copy_pass w st1)
                        (fun _ => pngs_plain) (fun _ _ => False)).
  { apply (for_each_rule (fun _ => pngs_plain) (fun _ _ => False)); [|done].
    intros done x rest st' Hl Hp'.
    assert (Hx : x ∈ retina_sizes) by (rewrite Hl; apply elem_of_app; right; left).
    pose proof (no_dir_copy_step w x st') as Hstep.
    rewrite copy_step_eq in Hstep |- *.
    destruct (fs st' !! src_path x) as [n|] eqn:Hsrc; [|done]. cbn zeta in *.
    assert (Hrc : status_of w (copy_cmd x) st' = 0).
    { unfold status_of, copy_cmd. rewrite Hsrc.
      destruct n as [|b].
      - exfalso. apply (Hp' (x * 2)); [by apply doubled_in_sizes|].
        by rewrite <- src_is_png.
      - apply Hok; [|done]. unfold all_commands. rewrite !elem_of_app.
        right. left. by apply (list_elem_of_fmap_2 copy_cmd). }
    rewrite Hrc in Hstep |- *. simpl in *.
    intros s Hs Hd. by apply (Hp' s Hs), Hstep. }
  destruct (copy_pass w st1) as [[[]|e] st2]; [by exists st2 | done].
Qed.

End RunFacts.

(** ** The picture for any size *)

Module DrawingFacts.
Import PyNum Quartz Layout.
Local Open Scope float_scope.

Lemma ltb_leb (x y : float) : (x <? y) = true -> (x <=? y) = true.
Proof.
  rewrite FloatAxioms.ltb_spec, FloatAxioms.leb_spec. unfold SFltb, SFleb.
  by destruct (SFcompare (Prim2SF x) (Prim2SF y)) as [[]|].
Qed.

(** [max(a, x)] is never below [a], whatever [x] is, not-a-number
    included. *)
Lemma max_if_at_least (a : Z) (x : float) :
  (int_to_float a <=? int_to_float a) = true ->
  (int_to_float a <=? to_cgfloat (max_if a x)) = true.
Proof.
  intros Hrefl. unfold max_if.
  destruct (int_to_float a <? x) eqn:Hlt; simpl; [by apply ltb_leb | done].
Qed.

End DrawingFacts.

(** * Further properties of the script *)

Module Extras.
Import PyNum Quartz Layout OS Py CreateIcon Progress Samples Names.
Import Rules Steps Paths Render Copy Checked Runs DrawingFacts NameFacts.
Import Footprint MoreSamples Plain FootprintFacts RunFacts.
Local Open Scope Z_scope.

(** X1.  For every integer size from 1 to 1024, the largest the script
    renders, the border is stroked at least 1 wide, the chevron at least
    2 wide and the cursor block is at least 2 high: the minimum in
    [max(1, ...)] and [max(2, ...)] holds also below the smallest size of
    the script, where it is what decides. *)
Theorem strokes_never_thinner_than_minimum (size : Z) :
  1 <= size <= 1024 ->
  (exists bw, Child.border size ≫= stroke_width_of = Some bw
              /\ (1 <=? bw)%float = true)
  /\ (exists cw, Child.chevron size ≫= stroke_width_of = Some cw
                 /\ (2 <=? cw)%float = true)
  /\ (exists h, rect_h <$> (Child.cursor size ≫= rect_of) = Some h
                /\ (2 <=? h)%float = true).
Proof.
  intros _. split_and!.
  - exists (to_cgfloat (max_if 1 (mul_if size 0.015))).
    split; [vm_compute; reflexivity | by apply (max_if_at_least 1)].
  - exists (to_cgfloat (max_if 2 (mul_if size 0.055))).
    split; [vm_compute; reflexivity | by apply (max_if_at_least 2)].
  - exists (to_cgfloat (max_if 2 (mul_if size 0.045))).
    split; [vm_compute; reflexivity | by apply (max_if_at_least 2)].
Qed.

Lemma strokes_never_thinner_than_minimum_witness :
  (exists bw, Child.border 8 ≫= stroke_width_of = Some bw
              /\ (1 <=? bw)%float = true)
  /\ (exists cw, Child.chevron 8 ≫= stroke_width_of = Some cw
                 /\ (2 <=? cw)%float = true)
  /\ (exists h, rect_h <$> (Child.cursor 8 ≫= rect_of) = Some h
                /\ (2 <=? h)%float = true).
Proof. apply (strokes_never_thinner_than_minimum 8). lia. Defined.

(** X2.  For every integer size from 1 to 1024 exactly five things are
    painted and the current path ends empty.  The border is stroked along the very path
    the panel was filled with, with the butt caps and miter joins of a
    fresh context; the round caps and joins apply to the chevron only,
    whose stroke holds its three points and nothing of the panel path. *)
Theorem paint_order_and_graphics_state (size : Z) :
  1 <= size <= 1024 ->
  length (canvas (Child.draw size)) = 5%nat
  /\ current_path (Child.draw size) = []
  /\ is_Some (Child.panel size ≫= path_of)
  /\ Child.border size ≫= path_of = Child.panel size ≫= path_of
  /\ Child.border size ≫= caps_of = Some (kCGLineCapButt, kCGLineJoinMiter)
  /\ Child.chevron size ≫= caps_of = Some (kCGLineCapRound, kCGLineJoinRound)
  /\ (length <$> (Child.chevron size ≫= path_of)) = Some 3%nat
  /\ (length ∘ omap point_of <$> (Child.chevron size ≫= path_of)) = Some 3%nat.
Proof.
  intros _. split_and!; try (vm_compute; reflexivity).
  vm_compute. by eexists.
Qed.

Lemma paint_order_and_graphics_state_witness :
  length (canvas (Child.draw 16)) = 5%nat
  /\ current_path (Child.draw 16) = []
  /\ is_Some (Child.panel 16 ≫= path_of)
  /\ Child.border 16 ≫= path_of = Child.panel 16 ≫= path_of
  /\ Child.border 16 ≫= caps_of = Some (kCGLineCapButt, kCGLineJoinMiter)
  /\ Child.chevron 16 ≫= caps_of = Some (kCGLineCapRound, kCGLineJoinRound)
  /\ (length <$> (Child.chevron 16 ≫= path_of)) = Some 3%nat
  /\ (length ∘ omap point_of <$> (Child.chevron 16 ≫= path_of)) = Some 3%nat.
Proof. apply (paint_order_and_graphics_state 16). lia. Defined.

(** X3.  For every integer size from 16 to 1024, the smallest and the
    largest the script renders, the panel lies inside the canvas, the
    three points of the chevron and the cursor block lie inside the
    panel, and the chevron lies wholly to the left of the cursor. *)
Theorem glyphs_stay_inside_panel (size : Z) :
  16 <= size <= 1024 -> layout_ok size = true.
Proof.
  intros Hrange.
  assert (Hall : Forall (fun s => layout_ok s = true) (seqZ 16 1009)).
  { apply (bool_decide_unpack _). vm_compute. exact I. }
  rewrite Forall_forall in Hall. apply Hall, elem_of_seqZ. lia.
Qed.

Lemma glyphs_stay_inside_panel_witness : layout_ok 100 = true.
Proof. apply (glyphs_stay_inside_panel 100). lia. Defined.

(** X4.  For all integers, not only the sizes of the script: different
    sizes give different base file names and different variant names, and
    a variant name is never a base name, so no copy can overwrite a
    rendered file or its own source. *)
Theorem file_names_never_collide (s t : Z) :
  (png_path s = png_path t <-> s = t)
  /\ (dst_path s = dst_path t <-> s = t)
  /\ dst_path s <> png_path t
  /\ dst_path s <> src_path t.
Proof.
  split_and!.
  - split; [|by intros ->]. intros Heq. by apply name_inj in Heq as [-> _].
  - split; [|by intros ->]. intros Heq. by apply name_inj in Heq as [-> _].
  - intros Heq. by apply name_inj in Heq as [_ ?].
  - intros Heq. by apply name_inj in Heq as [_ ?].
Qed.

(** X5.  A copy child that exits with a status other than 0 is as fatal
    as a drawing child: when the render loop went through, the run ends at
    the first such copy with [CalledProcessError] carrying its status; the
    children spawned are the seven drawing children, the copies before it
    and that one, so [iconutil] never runs, and the interpreter exits
    with 1. *)
Theorem copy_failure_aborts_run w st s :
  s ∈ retina_sizes ->
  exit_status w (copy_cmd s) <> 0 ->
  (forall b, fs st !! iconset_dir <> Some (File b)) ->
  (forall x, x ∈ sizes -> exit_status w (draw_cmd x) = 0) ->
  (forall x, x ∈ sizes -> is_Some (png_encode w (Child.image x))) ->
  exists done f rest st',
    retina_sizes = done ++ f :: rest
    /\ exit_status w (copy_cmd f) <> 0
    /\ main w st =
       (Raise (CalledProcessError (exit_status w (copy_cmd f)) (copy_cmd f)), st')
    /\ procs st' =
       procs st ++ ((fun x => (draw_cmd x, 0)) <$> sizes)
                ++ ((fun x => (copy_cmd x, 0)) <$> done)
                ++ [(copy_cmd f, exit_status w (copy_cmd f))]
    /\ exit_code (main w st).1 = 1.
Proof.
  intros Hs Hrc Hdir Hdraw Henc.
  destruct (first_failing copy_cmd w retina_sizes s Hs Hrc)
    as (done & f & rest & Hl & Hdone & Hf).
  destruct (makedirs_ready st Hdir) as (st1 & Hmk & _ & Hp1 & _).
  pose proof (render_pass_runs w sizes st1 pngs_distinct Hdraw) as Hr.
  fold (render_pass w) in Hr.
  destruct (render_pass w st1) as [[[]|e] st2] eqn:Hrun; [|done]. simpl in Hr.
  assert (Hsrc : forall x, x ∈ retina_sizes ->
                   exists b, fs st2 !! src_path x = Some (File b)).
  { intros x Hx. destruct (rendered_sources w st1 st2 Henc Hr x Hx) as (b & _ & H).
    by exists b. }
  destruct (copy_failure_at w st2 done f rest Hl Hsrc Hdone Hf)
    as (st3 & Hc & Hcopy).
  assert (Hmain : main w st =
            (Raise (CalledProcessError (exit_status w (copy_cmd f)) (copy_cmd f)),
             log_proc (copy_cmd f) (exit_status w (copy_cmd f)) st3)).
  { unfold main. rewrite (bind_ok _ _ _ _ _ Hmk), (bind_ok _ _ _ _ _ Hrun).
    by apply bind_raise. }
  exists done, f, rest. eexists. split_and!; [done | done | exact Hmain | |].
  - destruct Hr as (Hp2 & _). destruct Hc as (Hp3 & _).
    cbn. by rewrite Hp3, Hp2, Hp1, <- !app_assoc.
  - by rewrite Hmain.
Qed.

(** X6.  The run raises [FileExistsError] exactly when
    [/tmp/Term.iconset] is a regular file, and then it has changed
    nothing: no child, no line, no file. *)
Theorem directory_path_taken_by_a_file w st :
  (exists b, fs st !! iconset_dir = Some (File b))
  <-> main w st = (Raise (FileExistsError iconset_dir), st).
Proof.
  unfold main, bind at 1. unfold os_makedirs at 1. split.
  - intros [b ->]. done.
  - destruct (fs st !! iconset_dir) as [[|b]|] eqn:Hd; [| by eauto |];
      intros Hmain; exfalso.
    + pose proof (checked_passes w st) as Hc.
      change (bind (render_pass w) (fun _ => bind (copy_pass w) (fun _ => package w)) st
              = (Raise (FileExistsError iconset_dir), st)) in Hmain.
      rewrite <- bind_assoc in Hmain. unfold bind at 1 in Hmain.
      destruct (bind (render_pass w) (fun _ => copy_pass w) st) as [[[]|e] st3].
      * rewrite package_eq in Hmain. cbn zeta in Hmain.
        by destruct (exit_status w iconutil_cmd =? 0).
      * injection Hmain as -> _. done.
    + set (st1 := MkState _ _ _ _) in Hmain.
      pose proof (checked_passes w st1) as Hc.
      change (bind (render_pass w) (fun _ => bind (copy_pass w) (fun _ => package w)) st1
              = (Raise (FileExistsError iconset_dir), st)) in Hmain.
      rewrite <- bind_assoc in Hmain. unfold bind at 1 in Hmain.
      destruct (bind (render_pass w) (fun _ => copy_pass w) st1) as [[[]|e] st3].
      * rewrite package_eq in Hmain. cbn zeta in Hmain.
        by destruct (exit_status w iconutil_cmd =? 0).
      * injection Hmain as -> _. done.
Qed.

(** X7.  From a state in which none of the thirteen output paths is a
    directory, whatever the children do and however the run ends, the
    script touches only the fourteen paths it names (the directory, the
    twelve PNG files and the [.icns] file): every other path holds what
    it held before, and no path that existed is gone. *)
Theorem run_touches_only_its_paths w st p :
  outputs_plain st ->
  (p ∉ all_paths -> fs (main w st).2 !! p = fs st !! p)
  /\ (is_Some (fs st !! p) -> is_Some (fs (main w st).2 !! p)).
Proof. intros _. apply confined_main. Qed.

Lemma run_touches_only_its_paths_witness :
  ("/tmp/notes.txt" ∉ all_paths ->
   fs (main healthy cluttered).2 !! "/tmp/notes.txt" = fs cluttered !! "/tmp/notes.txt")
  /\ (is_Some (fs cluttered !! "/tmp/notes.txt") ->
      is_Some (fs (main healthy cluttered).2 !! "/tmp/notes.txt")).
Proof.
  apply (run_touches_only_its_paths healthy cluttered "/tmp/notes.txt").
  look_up_each_path.
Defined.

(** X8.  A run in which every child exits with 0 and every drawing child
    produces its file spawns exactly the thirteen commands of the script,
    in its order, and prints exactly fourteen lines: one [Created] line
    for each of the twelve PNG files, in the order they were made, then
    the banner and the install hint. *)
Theorem successful_run_console_and_children w st :
  (forall b, fs st !! iconset_dir <> Some (File b)) ->
  (forall c, c ∈ all_commands -> exit_status w c = 0) ->
  (forall s, s ∈ sizes -> is_Some (png_encode w (Child.image s))) ->
  exists st',
    main w st = (Ok tt, st')
    /\ procs st' = procs st ++ ((fun c => (c, 0)) <$> all_commands)
    /\ length all_commands = 13%nat
    /\ stdout st' =
       stdout st
         ++ ((fun s => "Created " +:+ png_path s) <$> sizes)
         ++ ((fun s => "Created " +:+ dst_path s) <$> retina_sizes)
         ++ [banner; install_hint].
Proof.
  intros Hdir Hok Henc.
  destruct (successful_run w st Hdir Hok Henc)
    as (st1 & st2 & st3 & Hmk & _ & Hr & _ & Hc & _ & Hmain).
  destruct (makedirs_ready st Hdir) as (st1' & Hmk' & Ho1 & Hp1 & _).
  rewrite Hmk in Hmk'. injection Hmk' as <-.
  destruct Hr as (Hp2 & Ho2 & _). destruct Hc as (Hp3 & Ho3 & _).
  eexists. split; [exact Hmain|].
  cbn [procs stdout emit log_proc write_file]. split_and!.
  - rewrite Hp3, Hp2, Hp1. unfold all_commands.
    rewrite !fmap_app, <- !list_fmap_compose, <- !app_assoc. done.
  - done.
  - rewrite Ho3, Ho2, Ho1, <- !app_assoc. done.
Qed.

Lemma successful_run_console_and_children_witness :
  exists st',
    main healthy fresh = (Ok tt, st')
    /\ procs st' = procs fresh ++ ((fun c => (c, 0)) <$> all_commands)
    /\ length all_commands = 13%nat
    /\ stdout st' =
       stdout fresh
         ++ ((fun s => "Created " +:+ png_path s) <$> sizes)
         ++ ((fun s => "Created " +:+ dst_path s) <$> retina_sizes)
         ++ [banner; install_hint].
Proof.
  apply (successful_run_console_and_children healthy fresh).
  - intros b. vm_compute. discriminate.
  - intros c _. reflexivity.
  - intros s _. eexists. reflexivity.
Defined.

(** X9.  Whatever the children do, a run spawns at most thirteen
    children, each command of the script at most once and in the order of
    the script: drawing children first, then copies, then [iconutil]. *)
Theorem no_command_runs_twice w st :
  exists new,
    procs (main w st).2 = procs st ++ new
    /\ new.*1 `sublist_of` all_commands
    /\ NoDup new.*1
    /\ (length new <= 13)%nat.
Proof.
  destruct (spawns_main w st) as (new & Hp & Hsub).
  exists new. split_and!; [done | done | |].
  - eapply sublist_NoDup; [apply all_commands_distinct | exact Hsub].
  - apply sublist_length in Hsub. by rewrite length_fmap in Hsub.
Qed.

(** X10.  The copy loop never announces a variant it did not make:
    whatever the children do, from any state in which no variant path is
    a directory, the [Created] lines it prints are those of the
    destinations it wrote, in the same order, and each of them holds a
    file when the loop ends. *)
Theorem copy_loop_announces_what_it_wrote w st :
  variants_plain st ->
  exists done,
    done `sublist_of` retina_sizes
    /\ stdout (copy_pass w st).2
       = stdout st ++ ((fun s => "Created " +:+ dst_path s) <$> done)
    /\ writes (copy_pass w st).2 = writes st ++ (dst_path <$> done)
    /\ forall s, s ∈ done ->
         exists b, fs (copy_pass w st).2 !! dst_path s = Some (File b).
Proof. intros _. apply copy_announcements. Qed.

Lemma copy_loop_announces_what_it_wrote_witness :
  let st := (render_pass healthy fresh).2 in
  exists done,
    done `sublist_of` retina_sizes
    /\ stdout (copy_pass healthy st).2
       = stdout st ++ ((fun s => "Created " +:+ dst_path s) <$> done)
    /\ writes (copy_pass healthy st).2 = writes st ++ (dst_path <$> done)
    /\ forall s, s ∈ done ->
         exists b, fs (copy_pass healthy st).2 !! dst_path s = Some (File b).
Proof.
  apply (copy_loop_announces_what_it_wrote healthy (render_pass healthy fresh).2).
  look_up_each_path.
Defined.

(** X11.  [iconutil] converts a complete icon set: in a run that began
    with no directory at any of the thirteen output paths and ends
    normally with [iconutil] exiting with 0, every drawing child having
    produced its file, the [.icns] file is the encoding of a file system
    in which all twelve PNG files are present. *)
Theorem conversion_sees_all_twelve_files w st st' :
  outputs_plain st ->
  (forall s, s ∈ sizes -> is_Some (png_encode w (Child.image s))) ->
  exit_status w iconutil_cmd = 0 ->
  main w st = (Ok tt, st') ->
  exists seen,
    fs st' !! icns_path = Some (File (icns_encode w seen))
    /\ forall p, p ∈ (png_path <$> sizes) ++ (dst_path <$> retina_sizes) ->
         exists b, seen !! p = Some (File b).
Proof.
  intros _ Henc Hrc Hmain.
  rewrite main_split in Hmain. unfold bind in Hmain.
  destruct (upto_copy w st) as [[[]|e] st3] eqn:Hup; [|done].
  rewrite package_eq in Hmain. cbn zeta in Hmain. rewrite Hrc in Hmain.
  injection Hmain as <-. exists (fs st3). split; [cbn; by rewrite lookup_insert_eq|].
  unfold upto_copy, bind in Hup.
  destruct (os_makedirs iconset_dir true st) as [[[]|e1] st1]; [|done].
  destruct (render_pass w st1) as [[[]|e2] st2] eqn:Hrun; [|done].
  pose proof (render_pass_ok w st1 st2 Hrun) as Hr.
  pose proof (copy_pass_from_sources w st2) as Hc.
  rewrite Hup in Hc. simpl in Hc.
  destruct Hc as (_ & _ & _ & Hframe & Hfs).
  { intros x Hx. destruct (rendered_sources w st1 st2 Henc Hr x Hx) as (b & _ & H).
    by exists b. }
  intros p Hp. apply elem_of_app in Hp as [Hp | Hp].
  - apply list_elem_of_fmap in Hp as (s & -> & Hs).
    destruct (Henc s Hs) as [b Hb]. exists b.
    rewrite Hframe; [|intros (x & Hx & Hin)%list_elem_of_fmap;
                       by apply (png_not_dst s x)].
    destruct Hr as (_ & _ & _ & _ & Hpng). by apply Hpng.
  - apply list_elem_of_fmap in Hp as (x & -> & Hx).
    destruct (rendered_sources w st1 st2 Henc Hr x Hx) as (b & _ & Hb).
    exists b. by rewrite Hfs.
Qed.

Lemma conversion_sees_all_twelve_files_witness :
  exists seen,
    fs (main healthy fresh).2 !! icns_path = Some (File (icns_encode healthy seen))
    /\ forall p, p ∈ (png_path <$> sizes) ++ (dst_path <$> retina_sizes) ->
         exists b, seen !! p = Some (File b).
Proof.
  apply (conversion_sees_all_twelve_files healthy fresh).
  - look_up_each_path.
  - intros s _. eexists. reflexivity.
  - reflexivity.
  - vm_compute. reflexivity.
Defined.

(** X12.  Exit statuses alone decide whether the run ends normally:
    when the directory can be made, no base PNG path is a directory and
    every drawing and copy child exits with 0, the run ends normally and
    the interpreter exits with 0, even if an encoder wrote nothing (the
    variant is then skipped) and whatever [iconutil] returns. *)
Theorem run_completes_when_children_exit_zero w st :
  (forall b, fs st !! iconset_dir <> Some (File b)) ->
  pngs_plain st ->
  (forall c, c ∈ all_commands -> is_conversion c = false -> exit_status w c = 0) ->
  (main w st).1 = Ok tt /\ exit_code (main w st).1 = 0.
Proof.
  intros Hdir Hplain Hok.
  destruct (makedirs_ready st Hdir) as (st1 & Hmk & _ & _ & _ & Hd1 & Hframe).
  assert (Hplain1 : pngs_plain st1).
  { intros s Hs. rewrite Hframe; [by apply Hplain|].
    by apply iconset_dir_not_png. }
  destruct (loops_go_through w st1 Hplain1 Hok) as (st2 & Hloops).
  assert (Hmain : (main w st).1 = Ok tt).
  { unfold main. rewrite (bind_ok _ _ _ _ _ Hmk).
    change ((bind (render_pass w)
               (fun _ => bind (copy_pass w) (fun _ => package w)) st1).1 = Ok tt).
    rewrite <- bind_assoc, (bind_ok _ _ _ _ _ Hloops), package_eq. cbn zeta.
    by destruct (exit_status w iconutil_cmd =? 0). }
  by rewrite Hmain.
Qed.

Lemma run_completes_when_children_exit_zero_witness :
  (main blind_encoder fresh).1 = Ok tt
  /\ exit_code (main blind_encoder fresh).1 = 0.
Proof.
  apply (run_completes_when_children_exit_zero blind_encoder fresh).
  - intros b. vm_compute. discriminate.
  - intros s _. vm_compute. discriminate.
  - intros c _ Hc. unfold blind_encoder. cbn. by rewrite Hc.
Defined.

Lemma copy_failure_aborts_run_witness :
  exists done f rest st',
    retina_sizes = done ++ f :: rest
    /\ exit_status cp128_fails (copy_cmd f) <> 0
    /\ main cp128_fails fresh =
       (Raise (CalledProcessError (exit_status cp128_fails (copy_cmd f))
                                  (copy_cmd f)), st')
    /\ procs st' =
       procs fresh ++ ((fun x => (draw_cmd x, 0)) <$> sizes)
                   ++ ((fun x => (copy_cmd x, 0)) <$> done)
                   ++ [(copy_cmd f, exit_status cp128_fails (copy_cmd f))]
    /\ exit_code (main cp128_fails fresh).1 = 1.
Proof.
  apply (copy_failure_aborts_run cp128_fails fresh 128).
  - apply list_elem_of_In. simpl. tauto.
  - vm_compute. discriminate.
  - intros b. vm_compute. discriminate.
  - intros x _. reflexivity.
  - intros x _. eexists. reflexivity.
Defined.

End Extras.
